(** * roi-modeler: the budget allocation optimizer

    A shallow embedding of [src/roi_modeler/optimize.py], of the two
    helpers of [src/roi_modeler/io_utils.py] it calls ([to_float] and
    [as_bool]) and of [build_default_constraints] of
    [src/roi_modeler/ingest.py], which produces the constraint table the
    optimizer reads, followed by their properties.

    Modelling conventions.
    - Python floats are modelled by exact rationals ([Q]).  Every
      comparison, tolerance ([1e-9], [1e-6]) and rounding step of the
      source is kept; what is idealised is the rounding error of binary
      floating point and the special values (inf, NaN as an arithmetic
      value).  Equality of amounts is [Qeq] ([==]).
    - [spend ** beta] is the one operation with no rational counterpart.
      It is a parameter [fpow] of the development: nothing below depends
      on how it is computed.
    - A pandas table is the list of its rows, in row order; the positional
      index used by [allocation.iloc[idx]] is the position in that list.
    - A Python [dict] with string keys is a [gmap string _].
    - A raised [ValueError] is the [Err] branch of a result type.
    - The clock read by [datetime.now] is an explicit input. *)

From Stdlib Require Import ZArith QArith Qround Qabs Qminmax Lqa Lia.
From Stdlib Require Import List String Ascii DecimalString DecimalZ Permutation.
From stdpp Require Import gmap strings list fin_maps sorting.

Local Open Scope Q_scope.

(** ** Numbers *)

Module Num.

(** [a < b] as a boolean, next to the library's [Qle_bool] and
    [Qeq_bool]. *)
Definition Qlt_bool (a b : Q) : bool := negb (Qle_bool b a).

(** Python's truth value of a float: [x or d] is [d] when [x] is zero. *)
Definition or_else (x d : Q) : Q := if Qeq_bool x 0 then d else x.

(** Python's [round(x)] to an integer: to nearest, ties to even. *)
Definition round_half_even (x : Q) : Z :=
  let f := Qfloor x in
  match Qcompare (x - inject_Z f) (1 # 2) with
  | Lt => f
  | Gt => (f + 1)%Z
  | Eq => if Z.even f then f else (f + 1)%Z
  end.

(** [10 ** nd] *)
Definition pow10 (nd : nat) : Q := inject_Z (10 ^ Z.of_nat nd).

(** Python's [round(x, nd)]. *)
Definition round (x : Q) (nd : nat) : Q :=
  inject_Z (round_half_even (x * pow10 nd)) / pow10 nd.

(** [sum] of a column. *)
Definition sum (l : list Q) : Q := fold_right Qplus 0 l.

Definition eps9 : Q := 1 # 1000000000.
Definition eps6 : Q := 1 # 1000000.

End Num.

(** ** Text *)

Module Text.

Definition is_space (c : ascii) : bool :=
  let n := nat_of_ascii c in
  ((9 <=? n)%nat && (n <=? 13)%nat) || ((28 <=? n)%nat && (n <=? 32)%nat).

Definition lower_char (c : ascii) : ascii :=
  let n := nat_of_ascii c in
  if ((65 <=? n)%nat && (n <=? 90)%nat)%bool then ascii_of_nat (n + 32) else c.

Fixpoint lstrip (l : list ascii) : list ascii :=
  match l with
  | c :: l' => if is_space c then lstrip l' else l
  | [] => []
  end.

(** [s.strip()] *)
Definition strip (s : string) : string :=
  string_of_list_ascii
    (rev (lstrip (rev (lstrip (list_ascii_of_string s))))).

(** [s.lower()] *)
Definition lower (s : string) : string :=
  string_of_list_ascii (map lower_char (list_ascii_of_string s)).

End Text.

(** ** io_utils.py *)

Module IoUtils.

(** A cell of the [enabled] column as [read_csv] and the left merge
    deliver it: a boolean, an integer, text, or the NaN that the merge
    puts in the place of a missing value. *)
Inductive flag_cell :=
| FBool (b : bool)
| FInt (z : Z)
| FText (s : string)
| FNaN.

(** A cell of a numeric column: [None], NaN, or a number.  Text cells
    (the branch of [to_float] that strips currency signs and parses the
    remainder) are outside this model. *)
Inductive num_cell :=
| NNone
| NNaN
| NNum (q : Q).

(** [str(value)] *)
Definition py_str (value : flag_cell) : string :=
  match value with
  | FBool true => "True"
  | FBool false => "False"
  | FInt z => NilZero.string_of_int (Z.to_int z)
  | FText s => s
  | FNaN => "nan"
  end.

Definition truthy_texts : list string := ["1"; "true"; "t"; "yes"; "y"]%string.

Definition as_bool (value : flag_cell) : bool :=
  match value with
  | FBool b => b
  | _ =>
      let text := Text.lower (Text.strip (py_str value)) in
      bool_decide (text ∈ truthy_texts)
  end.

Definition to_float (value : num_cell) : option Q :=
  match value with
  | NNone => None
  | NNaN => None
  | NNum q => Some q
  end.

End IoUtils.

(** ** optimize.py: data *)

Module Optimize.
Import Num IoUtils.

(** The errors [optimize_budget] raises.  Both infeasibility messages
    carry the offending total and the budget, printed with two decimals. *)
Inductive error :=
| UnknownObjective (objective : string)
| InfeasibleMin (min_total budget : Q)
| InfeasibleMax (max_total budget : Q).

Inductive result (A : Type) :=
| Ok (a : A)
| Err (e : error).
Arguments Ok {A} a.
Arguments Err {A} e.

(** The columns of the baseline table the optimizer reads. *)
Record baseline_row := {
  b_client_id : option string;
  b_channel : string;
  baseline_spend : Q;
  beta : Q;
  alpha_pipeline : Q;
  alpha_revenue : Q;
  alpha_hqls : Q;
  alpha_leads : Q
}.

(** The constraint table, [client_id] already dropped. *)
Record constraint_row := {
  c_channel : string;
  c_enabled : flag_cell;
  c_min_spend : num_cell;
  c_max_spend : num_cell;
  c_locked_spend : num_cell;
  c_min_share : num_cell;
  c_max_share : num_cell;
  c_min_roas : num_cell;
  c_max_cac : num_cell
}.

(** A row of [merged] once [_normalize_constraints] is done with it. *)
Record merged_row := {
  base : baseline_row;
  enabled : bool;
  min_spend : option Q;
  max_spend : option Q;
  locked_spend : option Q;
  min_share : option Q;
  max_share : option Q;
  min_roas : option Q;
  max_cac : option Q;
  min_spend_effective : Q;
  max_spend_effective : Q
}.

Record guardrails := {
  g_min_roas : num_cell;
  g_max_cac : num_cell
}.

(** The run request; [None] stands for a key that is absent or [None]. *)
Record run_request := {
  r_client_id : option string;
  r_total_budget : option Q;
  r_objective : option string;
  r_objective_overrides : option (gmap string Q);
  r_guardrails : option guardrails
}.

Record metrics := {
  pipeline : Q;
  revenue : Q;
  hqls : Q;
  leads : Q;
  roas : Q;
  cac : Q
}.

#[global] Instance Q_inhabited : Inhabited Q := populate 0.

(** ** _build_weights *)

Definition weight_names : list string :=
  ["pipeline"; "revenue"; "hqls"; "leads"; "roas"; "cac"]%string.

Definition default_weights (defaults : gmap string Q) : gmap string Q :=
  list_to_map (map (fun k => (k, default 0 (defaults !! k))) weight_names).

Definition apply_override (key : string) (value : Q) (weights : gmap string Q)
  : gmap string Q :=
  if decide (is_Some (weights !! key)) then <[key := value]> weights else weights.

Definition _build_weights
    (objective : string)
    (objective_catalog : gmap string (gmap string (gmap string Q)))
    (overrides : option (gmap string Q)) : result (gmap string Q) :=
  let defaults :=
    default ∅ (default ∅ (objective_catalog !! "objectives"%string) !! objective) in
  if decide (defaults = ∅) then Err (UnknownObjective objective)
  else
    let weights := default_weights defaults in
    match overrides with
    | Some o => Ok (map_fold apply_override weights o)
    | None => Ok weights
    end.

(** ** _predict and _score *)

Section Model.

(** [fpow spend beta] is [spend ** beta]. *)
Variable fpow : Q -> Q -> Q.

Definition zero_metrics : metrics :=
  {| pipeline := 0; revenue := 0; hqls := 0; leads := 0; roas := 0; cac := 0 |}.

Definition _predict (row : baseline_row) (spend : Q) : metrics :=
  if Qle_bool spend 0 then zero_metrics
  else
    let beta := beta row in
    let pipeline := alpha_pipeline row * fpow spend beta in
    let revenue := alpha_revenue row * fpow spend beta in
    let hqls := alpha_hqls row * fpow spend beta in
    let leads := alpha_leads row * fpow spend beta in
    let roas := if Qlt_bool 0 spend then revenue / spend else 0 in
    let cac := if Qlt_bool 0 hqls then spend / hqls else 0 in
    {| pipeline := pipeline; revenue := revenue; hqls := hqls;
       leads := leads; roas := roas; cac := cac |}.

Definition _score (m : metrics) (weights : gmap string Q) : Q :=
  (weights !!! "pipeline"%string) * pipeline m
  + (weights !!! "revenue"%string) * revenue m
  + (weights !!! "hqls"%string) * hqls m
  + (weights !!! "leads"%string) * leads m
  + (weights !!! "roas"%string) * roas m
  - (weights !!! "cac"%string) * cac m.

(** ** _normalize_constraints *)

(** The row the left merge produces for a channel without a constraint
    row: every constraint column is NaN. *)
Definition missing_constraint (channel : string) : constraint_row :=
  {| c_channel := channel; c_enabled := FNaN;
     c_min_spend := NNaN; c_max_spend := NNaN; c_locked_spend := NNaN;
     c_min_share := NNaN; c_max_share := NNaN;
     c_min_roas := NNaN; c_max_cac := NNaN |}.

(** [baseline_df.merge(constraints_df, on="channel", how="left")] *)
Definition merge_left (baseline_df : list baseline_row)
    (constraints_df : list constraint_row)
  : list (baseline_row * constraint_row) :=
  flat_map
    (fun b =>
       match List.filter (fun c => String.eqb (c_channel c) (b_channel b))
                         constraints_df with
       | [] => [(b, missing_constraint (b_channel b))]
       | matches => map (pair b) matches
       end)
    baseline_df.

(** [float(x or d)] for a cell that is [None] or a number. *)
Definition or_default (x : option Q) (d : Q) : Q :=
  match x with
  | Some v => or_else v d
  | None => d
  end.

(** The body of the loop over [merged.iterrows()]: the pair appended to
    [mins] and [maxes]. *)
Definition effective_bounds (total_budget : Q) (row_enabled : bool)
    (locked min_spend max_spend min_share max_share : option Q) : Q * Q :=
  let general :=
    let min_spend := or_default min_spend 0 in
    let max_spend := or_default max_spend total_budget in
    let min_spend :=
      match min_share with
      | Some s => Qmax min_spend (s * total_budget)
      | None => min_spend
      end in
    let max_spend :=
      match max_share with
      | Some s => Qmin max_spend (s * total_budget)
      | None => max_spend
      end in
    let max_spend := Qmax max_spend min_spend in
    (min_spend, max_spend) in
  if negb row_enabled then (0, 0)
  else
    match locked with
    | Some l => if Qle_bool 0 l then (l, l) else general
    | None => general
    end.

Definition normalize_row (total_budget : Q) (p : baseline_row * constraint_row)
  : merged_row :=
  let (b, c) := p in
  let row_enabled := as_bool (c_enabled c) in
  let min_spend := to_float (c_min_spend c) in
  let max_spend := to_float (c_max_spend c) in
  let locked := to_float (c_locked_spend c) in
  let min_share := to_float (c_min_share c) in
  let max_share := to_float (c_max_share c) in
  let bounds :=
    effective_bounds total_budget row_enabled locked min_spend max_spend
                     min_share max_share in
  {| base := b; enabled := row_enabled;
     min_spend := min_spend; max_spend := max_spend; locked_spend := locked;
     min_share := min_share; max_share := max_share;
     min_roas := to_float (c_min_roas c); max_cac := to_float (c_max_cac c);
     min_spend_effective := fst bounds; max_spend_effective := snd bounds |}.

Definition _normalize_constraints (baseline_df : list baseline_row)
    (constraints_df : list constraint_row) (total_budget : Q)
  : list merged_row :=
  map (normalize_row total_budget) (merge_left baseline_df constraints_df).

(** ** optimize_budget: the allocation loop *)

(** One pass of the inner [for idx, row in merged.iterrows()].  [best] is
    [None] while [best_idx is None] (and [best_gain] is minus infinity),
    and [Some (best_idx, best_gain, best_delta)] afterwards. *)
Definition consider (weights : gmap string Q) (step remaining : Q)
    (allocation : list Q) (best : option (nat * Q * Q))
    (entry : nat * merged_row) : option (nat * Q * Q) :=
  let (idx, row) := entry in
  if negb (enabled row) then best
  else
    let current := allocation !!! idx in
    let max_spend := max_spend_effective row in
    if Qle_bool (max_spend - eps9) current then best
    else
      let delta := Qmin (Qmin step remaining) (max_spend - current) in
      let current_score := _score (_predict (base row) current) weights in
      let next_score := _score (_predict (base row) (current + delta)) weights in
      let gain := next_score - current_score in
      match best with
      | None => Some (idx, gain, delta)
      | Some (_, best_gain, _) =>
          if Qlt_bool best_gain gain then Some (idx, gain, delta) else best
      end.

Definition find_best (weights : gmap string Q) (step remaining : Q)
    (merged : list merged_row) (allocation : list Q) : option (nat * Q * Q) :=
  fold_left (consider weights step remaining allocation)
            (zip (seq 0 (length merged)) merged) None.

(** [for _ in range(rounds)] with its two [break]s. *)
Fixpoint greedy (rounds : nat) (weights : gmap string Q) (step : Q)
    (merged : list merged_row) (allocation : list Q) (remaining : Q)
  : list Q * Q :=
  match rounds with
  | O => (allocation, remaining)
  | S rounds' =>
      if Qle_bool remaining eps9 then (allocation, remaining)
      else
        match find_best weights step remaining merged allocation with
        | None => (allocation, remaining)
        | Some (best_idx, _, best_delta) =>
            greedy rounds' weights step merged
                   (alter (fun a => a + best_delta) best_idx allocation)
                   (remaining - best_delta)
        end
  end.

(** One entry of [(merged["max_spend_effective"] - allocation).clip(lower=0.0)]. *)
Definition headroom (row : merged_row) (a : Q) : Q :=
  Qmax (max_spend_effective row - a) 0.

(** The residual step after the loop. *)
Definition redistribute (merged : list merged_row) (allocation : list Q)
    (remaining : Q) : list Q * Q :=
  if Qlt_bool eps6 remaining then
    let available := zip_with headroom merged allocation in
    if Qlt_bool 0 (sum available) then
      (zip_with (fun a av => a + av / sum available * remaining)
                allocation available, 0)
    else (allocation, remaining)
  else (allocation, remaining).

Definition max_rounds : nat := Z.to_nat 100000.

(** Lines 155 to 195: from the resolved table to the final spend vector
    and the budget left over. *)
Definition allocate (weights : gmap string Q) (total_budget : Q)
    (merged : list merged_row) : list Q * Q :=
  let allocation := map min_spend_effective merged in
  let remaining := total_budget - sum allocation in
  let step := Qmax (total_budget / 400) 50 in
  let (allocation, remaining) :=
    greedy max_rounds weights step merged allocation remaining in
  redistribute merged allocation remaining.

(** ** optimize_budget: the result *)

(** A row of the allocation table. *)
Record allocation_row := {
  a_client_id : option string;
  a_channel : string;
  recommended_spend : Q;
  recommended_share : Q;
  pred_pipeline : Q;
  pred_revenue : Q;
  pred_hqls : Q;
  pred_leads : Q;
  pred_roas : Q;
  pred_cac : Q;
  a_min_spend : Q;
  a_max_spend : Q
}.

Record summary := {
  generated_at : string;
  s_client_id : option string;
  s_objective : string;
  s_weights : gmap string Q;
  s_total_budget : Q;
  total_pipeline : Q;
  total_revenue : Q;
  total_hqls : Q;
  overall_roas : Q;
  overall_cac : Q;
  guardrail_status : string;
  unallocated_budget : Q
}.

Record OptimizationResult := {
  allocation : list allocation_row;
  result_summary : summary
}.

(** The dictionary appended to [rows] for one row of [merged]. *)
Definition report_row (request_client : option string) (total_budget : Q)
    (row : merged_row) (spend : Q) : allocation_row :=
  let pred := _predict (base row) spend in
  {| a_client_id :=
       match b_client_id (base row) with
       | Some c => Some c
       | None => request_client
       end;
     a_channel := b_channel (base row);
     recommended_spend := round spend 2;
     recommended_share :=
       if Qlt_bool 0 total_budget then round (spend / total_budget) 4 else 0;
     pred_pipeline := round (pipeline pred) 2;
     pred_revenue := round (revenue pred) 2;
     pred_hqls := round (hqls pred) 2;
     pred_leads := round (leads pred) 2;
     pred_roas := round (roas pred) 4;
     pred_cac := round (cac pred) 4;
     a_min_spend := round (min_spend_effective row) 2;
     a_max_spend := round (max_spend_effective row) 2 |}.

Definition report_rows (request_client : option string) (total_budget : Q)
    (merged : list merged_row) (spends : list Q) : list allocation_row :=
  zip_with (report_row request_client total_budget) merged spends.

(** [sort_values(by="recommended_spend", ascending=False)]: rows in
    decreasing order of [recommended_spend].  The order pandas gives to
    rows with equal keys is not fixed by the source; the merge sort used
    here keeps them in their original order. *)
Definition spend_desc (r1 r2 : allocation_row) : Prop :=
  recommended_spend r2 <= recommended_spend r1.

#[global] Instance spend_desc_dec : RelDecision spend_desc.
Proof.
  intros r1 r2. unfold spend_desc.
  destruct (Qle_bool (recommended_spend r2) (recommended_spend r1)) eqn:E.
  - left. apply Qle_bool_iff, E.
  - right. intros H. apply Qle_bool_iff in H. congruence.
Defined.

Definition sort_by_spend (rows : list allocation_row) : list allocation_row :=
  merge_sort spend_desc rows.

(** The guardrail check of lines 225 to 232. *)
Definition guardrail_check (g : option guardrails) (overall_roas overall_cac : Q)
  : string :=
  let min_roas := match g with Some g => to_float (g_min_roas g) | None => None end in
  let max_cac := match g with Some g => to_float (g_max_cac g) | None => None end in
  let status := "pass"%string in
  let status :=
    match min_roas with
    | Some m => if Qlt_bool overall_roas m then "fail"%string else status
    | None => status
    end in
  match max_cac with
  | Some m => if Qlt_bool m overall_cac then "fail"%string else status
  | None => status
  end.

(** [float(run_request.get("total_budget") or baseline_df["baseline_spend"].sum())] *)
Definition resolve_total_budget (baseline_df : list baseline_row)
    (request : run_request) : Q :=
  or_default (r_total_budget request) (sum (map baseline_spend baseline_df)).

(** [str(run_request.get("objective", "pipeline")).strip().lower()] *)
Definition resolve_objective (request : run_request) : string :=
  Text.lower (Text.strip (default "pipeline"%string (r_objective request))).

(** [optimize_budget]; [now] is the text [datetime.now(timezone.utc).isoformat()]
    evaluates to during the call. *)
Definition optimize_budget (now : string)
    (baseline_df : list baseline_row) (constraints_df : list constraint_row)
    (request : run_request)
    (objective_catalog : gmap string (gmap string (gmap string Q)))
  : result OptimizationResult :=
  let total_budget := resolve_total_budget baseline_df request in
  let objective := resolve_objective request in
  let overrides := default ∅ (r_objective_overrides request) in
  match _build_weights objective objective_catalog (Some overrides) with
  | Err e => Err e
  | Ok weights =>
      let merged := _normalize_constraints baseline_df constraints_df total_budget in
      let min_total := sum (map min_spend_effective merged) in
      let max_total := sum (map max_spend_effective merged) in
      if Qlt_bool eps6 (min_total - total_budget) then
        Err (InfeasibleMin (round min_total 2) (round total_budget 2))
      else if Qlt_bool (max_total + eps6) total_budget then
        Err (InfeasibleMax (round max_total 2) (round total_budget 2))
      else
        let (spends, remaining) := allocate weights total_budget merged in
        let allocation_df :=
          sort_by_spend
            (report_rows (r_client_id request) total_budget merged spends) in
        let total_pipeline := sum (map pred_pipeline allocation_df) in
        let total_revenue := sum (map pred_revenue allocation_df) in
        let total_hqls := sum (map pred_hqls allocation_df) in
        let overall_roas :=
          if Qlt_bool 0 total_budget then total_revenue / total_budget else 0 in
        let overall_cac :=
          if Qlt_bool 0 total_hqls then total_budget / total_hqls else 0 in
        Ok {| allocation := allocation_df;
              result_summary :=
                {| generated_at := now;
                   s_client_id := r_client_id request;
                   s_objective := objective;
                   s_weights := weights;
                   s_total_budget := round total_budget 2;
                   total_pipeline := round total_pipeline 2;
                   total_revenue := round total_revenue 2;
                   total_hqls := round total_hqls 2;
                   overall_roas := round overall_roas 4;
                   overall_cac := round overall_cac 4;
                   guardrail_status :=
                     guardrail_check (r_guardrails request) overall_roas overall_cac;
                   unallocated_budget := round remaining 6 |} |}
  end.

End Model.

End Optimize.

(** ** ingest.py: build_default_constraints *)

Module Ingest.
Import Num IoUtils Optimize.

(** The four columns of the baseline table [build_default_constraints]
    reads: the optimizer's row (for [channel] and [baseline_spend]) and
    the two historical ratios. *)
Record channel_stats := {
  st_row : baseline_row;
  roas_baseline : Q;
  cac_baseline : Q
}.

Definition min_spend_for (row : channel_stats) : Q :=
  if Qle_bool (baseline_spend (st_row row)) 0 then 0
  else round (baseline_spend (st_row row) * 0.40) 2.

Definition max_spend_for (total_budget : Q) (row : channel_stats) : Q :=
  if Qle_bool total_budget 0 then round (baseline_spend (st_row row) * 1.8) 2
  else
    let limit := Qmax (baseline_spend (st_row row) * 1.8) (total_budget * 0.10) in
    round (Qmin limit (total_budget * 0.75)) 2.

(** [series.replace(0, pd.NA)], one cell. *)
Definition zero_to_na (x : Q) : num_cell :=
  if Qeq_bool x 0 then NNaN else NNum x.

(** One row of the table [build_default_constraints] returns.  A
    [pd.NA] cell is the missing cell [NNaN]: [to_float] gives [None] for
    both. *)
Definition default_constraint (total_budget : Q) (row : channel_stats)
  : constraint_row :=
  let min_spend := min_spend_for row in
  let max_spend := max_spend_for total_budget row in
  {| c_channel := b_channel (st_row row);
     c_enabled := FBool (Qlt_bool 0 (baseline_spend (st_row row)));
     c_min_spend := NNum min_spend;
     c_max_spend := NNum max_spend;
     c_locked_spend := NNaN;
     c_min_share :=
       if Qlt_bool 0 total_budget then NNum (min_spend / total_budget) else NNaN;
     c_max_share :=
       if Qlt_bool 0 total_budget then NNum (max_spend / total_budget) else NNaN;
     c_min_roas := zero_to_na (roas_baseline row * 0.70);
     c_max_cac := zero_to_na (cac_baseline row * 1.40) |}.

Definition build_default_constraints (baseline_df : list channel_stats)
    (total_budget : Q) : list constraint_row :=
  map (default_constraint total_budget) baseline_df.

End Ingest.

(** * Reference values and sample inputs *)

Module Spec.
Import Num Optimize.

(** The weight the specification gives to key [k]: for the six
    recognized names, the override when there is one, else the catalog
    default, else zero; no entry for any other key. *)
Definition resolved_weight (defaults overrides : gmap string Q) (k : string)
  : option Q :=
  if bool_decide (k ∈ weight_names) then
    Some (match overrides !! k with
          | Some v => v
          | None => default 0 (defaults !! k)
          end)
  else None.

(** A spend [a] lies within the effective bounds of [row], with [slack]
    allowed above the maximum. *)
Definition in_bounds (slack : Q) (row : merged_row) (a : Q) : Prop :=
  min_spend_effective row <= a /\ a <= max_spend_effective row + slack.

(** [in_bounds], and a channel whose bounds coincide sits exactly on
    them. *)
Definition final_bounds (slack : Q) (row : merged_row) (a : Q) : Prop :=
  min_spend_effective row <= a /\
  a <= max_spend_effective row + slack /\
  (max_spend_effective row <= min_spend_effective row ->
   a == min_spend_effective row).

(** What a triple chosen by the inner loop says about its channel. *)
Definition candidate (merged : list merged_row) (step remaining : Q)
    (allocation : list Q) (best : option (nat * Q * Q)) : Prop :=
  match best with
  | None => True
  | Some (idx, _, delta) =>
      exists row, merged !! idx = Some row /\
        enabled row = true /\
        allocation !!! idx < max_spend_effective row - eps9 /\
        delta = Qmin (Qmin step remaining)
                     (max_spend_effective row - allocation !!! idx)
  end.

(** A summary with its time stamp replaced. *)
Definition with_generated_at (t : string) (s : summary) : summary :=
  {| generated_at := t;
     s_client_id := s_client_id s;
     s_objective := s_objective s;
     s_weights := s_weights s;
     s_total_budget := s_total_budget s;
     total_pipeline := total_pipeline s;
     total_revenue := total_revenue s;
     total_hqls := total_hqls s;
     overall_roas := overall_roas s;
     overall_cac := overall_cac s;
     guardrail_status := guardrail_status s;
     unallocated_budget := unallocated_budget s |}.

(** A run request with its total budget set. *)
Definition with_total_budget (b : Q) (r : run_request) : run_request :=
  {| r_client_id := r_client_id r;
     r_total_budget := Some b;
     r_objective := r_objective r;
     r_objective_overrides := r_objective_overrides r;
     r_guardrails := r_guardrails r |}.

(** The request leaves the total budget out: the key is absent, [None],
    or zero. *)
Definition budget_missing (r : run_request) : Prop :=
  match r_total_budget r with
  | None => True
  | Some b => b == 0
  end.

End Spec.

(** * Further notions used in the properties *)

Module Notions.
Import Num Text IoUtils Optimize.

(** A request with its guardrails replaced. *)
Definition with_guardrails (g : option guardrails) (r : run_request) : run_request :=
  {| r_client_id := r_client_id r;
     r_total_budget := r_total_budget r;
     r_objective := r_objective r;
     r_objective_overrides := r_objective_overrides r;
     r_guardrails := g |}.

(** A summary with its guardrail status replaced. *)
Definition with_guardrail_status (st : string) (s : summary) : summary :=
  {| generated_at := generated_at s;
     s_client_id := s_client_id s;
     s_objective := s_objective s;
     s_weights := s_weights s;
     s_total_budget := s_total_budget s;
     total_pipeline := total_pipeline s;
     total_revenue := total_revenue s;
     total_hqls := total_hqls s;
     overall_roas := overall_roas s;
     overall_cac := overall_cac s;
     guardrail_status := st;
     unallocated_budget := unallocated_budget s |}.

(** The channel at position [idx] can still take budget: it is enabled
    and more than 1e-9 below its effective maximum. *)
Definition eligible (allocation : list Q) (idx : nat) (row : merged_row) : Prop :=
  enabled row = true /\
  allocation !!! idx < max_spend_effective row - eps9.

(** The increment the inner loop offers the channel at [idx]. *)
Definition delta_of (step remaining : Q) (allocation : list Q)
    (idx : nat) (row : merged_row) : Q :=
  Qmin (Qmin step remaining) (max_spend_effective row - allocation !!! idx).

(** The gain the inner loop computes for the channel at [idx]. *)
Definition gain_of (fpow : Q -> Q -> Q) (weights : gmap string Q)
    (step remaining : Q) (allocation : list Q) (idx : nat) (row : merged_row)
  : Q :=
  _score (_predict fpow (base row)
            (allocation !!! idx + delta_of step remaining allocation idx row))
         weights
  - _score (_predict fpow (base row) (allocation !!! idx)) weights.

(** What the inner loop holds in [best] after the entries [l]: nothing
    when none of them is eligible, else the first entry of greatest
    gain. *)
Definition chosen (fpow : Q -> Q -> Q) (weights : gmap string Q)
    (step remaining : Q) (allocation : list Q)
    (l : list (nat * merged_row)) (best : option (nat * Q * Q)) : Prop :=
  match best with
  | None =>
      forall k idx row, l !! k = Some (idx, row) -> ~ eligible allocation idx row
  | Some (i, g, d) =>
      exists k row,
        l !! k = Some (i, row) /\ eligible allocation i row /\
        g = gain_of fpow weights step remaining allocation i row /\
        d = delta_of step remaining allocation i row /\
        forall k' j row',
          l !! k' = Some (j, row') -> eligible allocation j row' ->
          gain_of fpow weights step remaining allocation j row' <= g /\
          ((k' < k)%nat ->
           gain_of fpow weights step remaining allocation j row' < g)
  end.

(** The channel of the pair can still take budget. *)
Definition is_open (p : merged_row * Q) : bool :=
  enabled (fst p) && Qlt_bool (snd p) (max_spend_effective (fst p) - eps9).

(** How many channels can still take budget. *)
Definition open_count (merged : list merged_row) (allocation : list Q) : nat :=
  length (List.filter is_open (zip merged allocation)).

(** How many whole steps fit in the remaining budget. *)
Definition whole_steps (step remaining : Q) : nat :=
  Z.to_nat (Qfloor (remaining / step)).

(** [strip] on the list of characters. *)
Definition strip_list (l : list ascii) : list ascii :=
  rev (lstrip (rev (lstrip l))).

Definition no_leading_space (l : list ascii) : Prop :=
  match l with
  | c :: _ => is_space c = false
  | [] => True
  end.

(** A character that [strip] keeps and [lower] leaves alone. *)
Definition plain_char (c : ascii) : Prop :=
  is_space c = false /\ lower_char c = c.

(** A request with its objective replaced. *)
Definition with_objective (o : option string) (r : run_request) : run_request :=
  {| r_client_id := r_client_id r;
     r_total_budget := r_total_budget r;
     r_objective := o;
     r_objective_overrides := r_objective_overrides r;
     r_guardrails := r_guardrails r |}.

End Notions.

Module Samples.
Import IoUtils Optimize.

(** A power function that is exact for [beta = 1], the exponent of the
    sample channels. *)
Definition linear_pow (spend beta : Q) : Q := spend.

Definition channel (name : string) (spend : Q) : baseline_row :=
  {| b_client_id := None; b_channel := name; baseline_spend := spend;
     beta := 1; alpha_pipeline := 2; alpha_revenue := 3;
     alpha_hqls := 1 # 10; alpha_leads := 1 |}.

Definition constraint (name : string) (flag : flag_cell)
    (min_spend max_spend locked : num_cell) : constraint_row :=
  {| c_channel := name; c_enabled := flag;
     c_min_spend := min_spend; c_max_spend := max_spend;
     c_locked_spend := locked;
     c_min_share := NNaN; c_max_share := NNaN;
     c_min_roas := NNaN; c_max_cac := NNaN |}.

Definition request (budget : option Q) : run_request :=
  {| r_client_id := Some "acme"%string; r_total_budget := budget;
     r_objective := Some "pipeline"%string;
     r_objective_overrides := None; r_guardrails := None |}.

Definition catalog : gmap string (gmap string (gmap string Q)) :=
  {[ "objectives"%string :=
       {[ "pipeline"%string := {[ "pipeline"%string := 1 ]} ]} ]}.

(** A catalog that lists the objective with no weight at all. *)
Definition catalog_empty_entry : gmap string (gmap string (gmap string Q)) :=
  {[ "objectives"%string := {[ "pipeline"%string := ∅ ]} ]}.

Definition search : baseline_row := channel "search" 1000.
Definition social : baseline_row := channel "social" 500.

Definition baseline : list baseline_row := [search; social].

(** Both channels locked at amounts with a third decimal. *)
Definition locked_constraints : list constraint_row :=
  [constraint "search" (FBool true) NNaN NNaN (NNum 600.004);
   constraint "social" (FBool true) NNaN NNaN (NNum 400.004)].

(** A disabled channel that also carries a locked spend. *)
Definition disabled_locked_constraints : list constraint_row :=
  [constraint "search" (FBool false) NNaN NNaN (NNum 500);
   constraint "social" (FBool true) NNaN NNaN (NNum 1000)].

(** One channel whose bounds are closer than 1e-9, with a budget 1e-6
    above its maximum. *)
Definition tight_constraints : list constraint_row :=
  [constraint "search" (FBool true)
              (NNum 100.0049999994) (NNum 100.0049999999) NNaN].

(** Item 6 of the specification's testable properties: two channels
    with [min_spend = 6000] each, for a budget of 10000. *)
Definition heavy_constraints : list constraint_row :=
  [constraint "search" (FBool true) (NNum 6000) NNaN NNaN;
   constraint "social" (FBool true) (NNum 6000) NNaN NNaN].

Definition wide_constraints : list constraint_row :=
  [constraint "search" (FBool true) (NNum 100) (NNum 1000) NNaN;
   constraint "social" (FBool true) NNaN (NNum 1000) NNaN].

Definition plain_constraints : list constraint_row :=
  [constraint "search" (FBool true) (NNum 100) (NNum 800) NNaN;
   constraint "social" (FBool true) NNaN (NNum 900) NNaN].

End Samples.

Module MoreSamples.
Import Num IoUtils Optimize Ingest Samples.

(** The weights of the sample catalog's only objective. *)
Definition pipeline_weights : gmap string Q :=
  default_weights {[ "pipeline"%string := 1 ]}.

(** The two sample channels under [plain_constraints], resolved for a
    budget of 1000. *)
Definition plain_merged : list merged_row :=
  _normalize_constraints baseline plain_constraints 1000.

Definition stats : list channel_stats :=
  [ {| st_row := search; roas_baseline := 3; cac_baseline := 10 |};
    {| st_row := social; roas_baseline := 0; cac_baseline := 10 |} ].

Definition search_stats : channel_stats :=
  {| st_row := search; roas_baseline := 3; cac_baseline := 10 |}.

Definition request_for (objective : string) : run_request :=
  {| r_client_id := Some "acme"%string; r_total_budget := Some 1000;
     r_objective := Some objective;
     r_objective_overrides := None; r_guardrails := None |}.

Definition roas_floor : guardrails :=
  {| g_min_roas := NNum 2; g_max_cac := NNaN |}.

End MoreSamples.

(** * Properties *)

(** ** Facts about the numeric helpers *)

Module NumFacts.
Import Num.

Lemma Qlt_bool_iff a b : Qlt_bool a b = true <-> a < b.
Proof.
  unfold Qlt_bool. rewrite negb_true_iff.
  split.
  - intros H. apply Qnot_le_lt. intros Hle.
    apply Qle_bool_iff in Hle. congruence.
  - intros H. destruct (Qle_bool b a) eqn:E; [|reflexivity].
    apply Qle_bool_iff in E. exfalso. apply (Qlt_not_le _ _ H E).
Qed.

Lemma Qlt_bool_false a b : Qlt_bool a b = false <-> b <= a.
Proof.
  unfold Qlt_bool. rewrite negb_false_iff. apply Qle_bool_iff.
Qed.

Lemma Qle_bool_false a b : Qle_bool a b = false <-> b < a.
Proof.
  rewrite <- Qlt_bool_iff. unfold Qlt_bool.
  destruct (Qle_bool a b); simpl; split; congruence.
Qed.

Lemma or_else_nonneg x d : 0 <= d -> 0 <= x -> 0 <= or_else x d.
Proof. intros Hd Hx. unfold or_else. destruct (Qeq_bool x 0); assumption. Qed.

Lemma sum_cons a l : sum (a :: l) = a + sum l.
Proof. reflexivity. Qed.

Lemma sum_Permutation l l' : Permutation l l' -> sum l == sum l'.
Proof.
  induction 1; cbn.
  - reflexivity.
  - rewrite IHPermutation. reflexivity.
  - ring.
  - etransitivity; eassumption.
Qed.

Lemma sum_alter (f : Q -> Q) i (l : list Q) a :
  l !! i = Some a -> sum (alter f i l) == sum l - a + f a.
Proof.
  revert i. induction l as [|x l IH]; intros [|i] H; try discriminate.
  - injection H as ->. cbn. ring.
  - cbn in H. cbn. change (x + sum (alter f i l) == x + sum l - a + f a).
    rewrite (IH i H). ring.
Qed.

Lemma round_half_even_error x :
  Qabs (inject_Z (round_half_even x) - x) <= 1 # 2.
Proof.
  unfold round_half_even.
  pose proof (Qfloor_le x) as Hlo. pose proof (Qlt_floor x) as Hhi.
  rewrite inject_Z_plus in Hhi.
  change (inject_Z 1) with 1 in Hhi.
  apply Qabs_Qle_condition.
  destruct (Qcompare (x - inject_Z (Qfloor x)) (1 # 2)) eqn:E.
  - apply Qeq_alt in E.
    destruct (Z.even (Qfloor x)); [|rewrite inject_Z_plus; change (inject_Z 1) with 1];
      split; lra.
  - apply Qlt_alt in E. split; lra.
  - apply Qgt_alt in E. rewrite inject_Z_plus; change (inject_Z 1) with 1.
    split; lra.
Qed.

Lemma pow10_pos nd : 0 < pow10 nd.
Proof.
  unfold pow10. change 0 with (inject_Z 0). rewrite <- Zlt_Qlt.
  apply Z.pow_pos_nonneg; lia.
Qed.

Lemma round_error x nd : Qabs (round x nd - x) <= (1 # 2) / pow10 nd.
Proof.
  unfold round. pose proof (pow10_pos nd) as Hp.
  pose proof (round_half_even_error (x * pow10 nd)) as H.
  set (r := inject_Z (round_half_even (x * pow10 nd))) in *.
  apply Qabs_Qle_condition in H as [H1 H2].
  apply Qabs_Qle_condition.
  assert (r / pow10 nd - x == (r - x * pow10 nd) / pow10 nd) as ->
    by (field; lra).
  split.
  - apply Qle_shift_div_l; [assumption|].
    assert (- ((1 # 2) / pow10 nd) * pow10 nd == - (1 # 2)) as -> by (field; lra).
    assumption.
  - apply Qle_shift_div_r; [assumption|].
    assert ((1 # 2) / pow10 nd * pow10 nd == (1 # 2)) as -> by (field; lra).
    assumption.
Qed.

Lemma round2_error x : Qabs (round x 2 - x) <= 1 # 200.
Proof. apply (round_error x 2). Qed.

Lemma round6_error x : Qabs (round x 6 - x) <= 1 # 2000000.
Proof. apply (round_error x 6). Qed.

Lemma share_bound av S rem slack :
  0 <= av -> av <= S -> 0 < S -> 0 <= rem -> rem <= S + slack -> 0 <= slack ->
  0 <= av / S * rem /\ av / S * rem <= av + slack.
Proof.
  intros H0 H1 HS Hr0 Hr1 Hs.
  assert (av / S * S == av) as Ht by (field; lra).
  assert (0 <= av / S) as Ht0 by (apply Qle_shift_div_l; lra).
  assert (av / S <= 1) as Ht1 by (apply Qle_shift_div_r; lra).
  set (t := av / S) in *.
  split; nra.
Qed.

Lemma share_zero av S rem : av == 0 -> ~ S == 0 -> av / S * rem == 0.
Proof. intros -> HS. field. assumption. Qed.

Lemma sum_nonneg (l : list Q) : Forall (fun y => 0 <= y) l -> 0 <= sum l.
Proof.
  induction 1 as [|y l Hy _ IH]; [apply Qle_refl|].
  rewrite sum_cons. lra.
Qed.

Lemma sum_elem_le (l : list Q) i x :
  Forall (fun y => 0 <= y) l -> l !! i = Some x -> x <= sum l.
Proof.
  intros Hl. revert i. induction Hl as [|y l Hy Hl IH]; intros [|i] H;
    try discriminate.
  - injection H as ->. pose proof (sum_nonneg l Hl). rewrite sum_cons. lra.
  - cbn in H. specialize (IH i H). rewrite sum_cons. lra.
Qed.

Lemma sum_shares (S rem : Q) (allocation available : list Q) :
  ~ S == 0 -> length allocation = length available ->
  sum (zip_with (fun a av => a + av / S * rem) allocation available)
  == sum allocation + sum available / S * rem.
Proof.
  intros HS. revert available.
  induction allocation as [|a l IH]; intros [|av k] Hlen; try discriminate.
  - cbn. field. assumption.
  - cbn in Hlen. injection Hlen as Hlen. cbn.
    change (a + av / S * rem
            + sum (zip_with (fun a av => a + av / S * rem) l k)
            == a + sum l + (av + sum k) / S * rem).
    rewrite (IH k Hlen). field. assumption.
Qed.

#[global] Instance round_half_even_comp : Proper (Qeq ==> eq) round_half_even.
Proof.
  intros x y H. unfold round_half_even.
  rewrite (Qfloor_comp x y H).
  rewrite (Qcompare_comp (x - inject_Z (Qfloor y)) (y - inject_Z (Qfloor y))
             (ltac:(rewrite H; reflexivity)) (1#2) (1#2) (Qeq_refl _)).
  reflexivity.
Qed.

#[global] Instance round_comp : Proper (Qeq ==> eq ==> Qeq) round.
Proof.
  intros x y H n ? <-. unfold round.
  rewrite (round_half_even_comp (x * pow10 n) (y * pow10 n)
             (ltac:(rewrite H; reflexivity))).
  reflexivity.
Qed.

Lemma sum_round2_error (l : list Q) :
  Qabs (sum (map (fun s => round s 2) l) - sum l)
  <= (1 # 200) * inject_Z (Z.of_nat (length l)).
Proof.
  apply Qabs_Qle_condition.
  induction l as [|x l IH].
  - cbn. split; discriminate.
  - cbn [map length]. rewrite !sum_cons.
    rewrite Nat2Z.inj_succ, <- Z.add_1_r, inject_Z_plus.
    change (inject_Z 1) with 1.
    pose proof (round2_error x) as Hx.
    apply Qabs_Qle_condition in Hx. lra.
Qed.

Lemma sum_map_le {A} (f g : A -> Q) (l : list A) :
  Forall (fun x => f x <= g x) l -> sum (map f l) <= sum (map g l).
Proof.
  induction 1 as [|x l H _ IH]; [apply Qle_refl|].
  cbn [map]. rewrite !sum_cons. lra.
Qed.

End NumFacts.

(** ** Weight resolution *)

Module Weights.
Import Optimize Spec Samples.

Lemma default_weights_lookup (defaults : gmap string Q) (k : string) :
  default_weights defaults !! k = resolved_weight defaults ∅ k.
Proof.
  unfold default_weights, resolved_weight, weight_names.
  cbn [map list_to_map foldr fst snd].
  replace ((∅ : gmap string Q) !! k) with (@None Q)
    by (symmetry; apply lookup_empty).
  repeat (rewrite lookup_insert; destruct (decide _) as [<-|?];
          [reflexivity|]).
  rewrite lookup_empty.
  rewrite bool_decide_eq_false_2; [reflexivity|].
  intros Hin. repeat (apply elem_of_cons in Hin as [->|Hin]; [congruence|]).
  by apply elem_of_nil in Hin.
Qed.

Lemma overrides_fold_lookup (defaults overrides : gmap string Q) (k : string) :
  map_fold apply_override (default_weights defaults) overrides !! k
  = resolved_weight defaults overrides k.
Proof.
  revert k.
  apply (map_fold_weak_ind
           (fun (r : gmap string Q) (m : gmap string Q) =>
              forall k, r !! k = resolved_weight defaults m k)).
  - apply default_weights_lookup.
  - intros i x m r Hi IH k. unfold apply_override.
    case_decide as Hs.
    + destruct (decide (i = k)) as [->|Hne].
      * rewrite lookup_insert_eq. rewrite IH in Hs.
        unfold resolved_weight in *. rewrite lookup_insert_eq.
        case_bool_decide; [reflexivity|]. by destruct Hs.
      * rewrite lookup_insert_ne by done. rewrite IH.
        unfold resolved_weight. by rewrite lookup_insert_ne.
    + destruct (decide (i = k)) as [->|Hne].
      * rewrite IH in Hs. rewrite IH. unfold resolved_weight in *.
        case_bool_decide; [|reflexivity]. destruct Hs. eauto.
      * rewrite IH. unfold resolved_weight. by rewrite lookup_insert_ne.
Qed.

Lemma build_weights_ok objective catalog overrides w :
  _build_weights objective catalog overrides = Ok w ->
  let defaults :=
    default ∅ (default ∅ (catalog !! "objectives"%string) !! objective) in
  defaults <> ∅ /\
  forall k, w !! k = resolved_weight defaults (default ∅ overrides) k.
Proof.
  unfold _build_weights. cbn zeta. case_decide as Hd; [discriminate|].
  intros H. split; [assumption|]. intros k.
  destruct overrides as [o|]; injection H as <-; cbn [default].
  - apply overrides_fold_lookup.
  - apply default_weights_lookup.
Qed.

(** C7, as the code has it.  Weight resolution fails, with
    Unknown-Objective, exactly when the catalog has no entry for the
    objective or has an entry with no weight in it.  Otherwise the result
    has exactly the six recognized keys, each holding the override when
    one is supplied, else the catalog default, else zero; override keys
    outside the six names are ignored. *)
Theorem build_weights_spec (objective : string)
    (catalog : gmap string (gmap string (gmap string Q)))
    (overrides : option (gmap string Q)) :
  let objectives := default ∅ (catalog !! "objectives"%string) in
  let defaults := default ∅ (objectives !! objective) in
  (_build_weights objective catalog overrides = Err (UnknownObjective objective)
   <-> (objectives !! objective = None \/ objectives !! objective = Some ∅)) /\
  (defaults <> ∅ ->
   exists w, _build_weights objective catalog overrides = Ok w /\
     forall k, w !! k = resolved_weight defaults (default ∅ overrides) k).
Proof.
  cbn zeta. split.
  - unfold _build_weights. cbn zeta.
    destruct (default ∅ (catalog !! "objectives"%string) !! objective)
      as [d|] eqn:E; cbn [default].
    + case_decide as Hd.
      * change (d = ∅) in Hd. subst d.
        split; [intros _; right; reflexivity | reflexivity].
      * split.
        -- destruct overrides; discriminate.
        -- intros [H|H]; [discriminate|].
           injection H as ->. exfalso. apply Hd. reflexivity.
    + rewrite decide_True by reflexivity.
      split; [intros _; left; reflexivity | reflexivity].
  - intros Hd.
    destruct (_build_weights objective catalog overrides) as [w|e] eqn:E.
    + exists w. split; [reflexivity|]. apply (build_weights_ok _ _ _ _ E).
    + exfalso. unfold _build_weights in E. cbn zeta in E.
      rewrite decide_False in E by assumption.
      destruct overrides; discriminate.
Qed.

(** C7 fails as stated: the objective is present in the catalog, with an
    empty entry, and weight resolution still reports it as unknown. *)
Lemma build_weights_empty_entry_fails :
  (default ∅ (catalog_empty_entry !! "objectives"%string))
    !! "pipeline"%string = Some ∅ /\
  _build_weights "pipeline" catalog_empty_entry None
  = Err (UnknownObjective "pipeline").
Proof. split; vm_compute; reflexivity. Qed.

Lemma build_weights_spec_witness :
  exists w, _build_weights "pipeline" catalog None = Ok w /\
    forall k, w !! k
      = resolved_weight
          (default ∅ (default ∅ (catalog !! "objectives"%string)
                      !! "pipeline"%string)) ∅ k.
Proof.
  apply (proj2 (build_weights_spec "pipeline" catalog None)).
  vm_compute. discriminate.
Defined.

End Weights.

(** ** Constraint resolution *)

Module Constraints.
Import Num NumFacts IoUtils Optimize Samples.

Lemma effective_bounds_ordered total en locked mn mx mns mxs :
  fst (effective_bounds total en locked mn mx mns mxs)
  <= snd (effective_bounds total en locked mn mx mns mxs).
Proof.
  unfold effective_bounds.
  destruct en; cbn [negb]; [|apply Qle_refl].
  assert (forall a b, a <= Qmax b a) as Hmax by (intros; apply Q.le_max_r).
  destruct locked as [l|]; [destruct (Qle_bool 0 l)|]; cbn [fst snd];
    try apply Qle_refl; apply Hmax.
Qed.

Lemma effective_bounds_nonneg total en locked mn mx mns mxs :
  match mn with Some v => 0 <= v | None => True end ->
  0 <= fst (effective_bounds total en locked mn mx mns mxs).
Proof.
  intros Hmn. unfold effective_bounds.
  destruct en; cbn [negb]; [|apply Qle_refl].
  assert (0 <= or_default mn 0) as H0.
  { destruct mn as [v|]; cbn; [|apply Qle_refl].
    apply or_else_nonneg; [apply Qle_refl|assumption]. }
  assert (0 <= match mns with
               | Some s => Qmax (or_default mn 0) (s * total)
               | None => or_default mn 0
               end) as H1.
  { destruct mns; [|assumption].
    eapply Qle_trans; [exact H0|apply Q.le_max_l]. }
  destruct locked as [l|]; [destruct (Qle_bool 0 l) eqn:E|]; cbn [fst snd];
    try assumption.
  apply Qle_bool_iff, E.
Qed.

Lemma normalized_ordered bl cs total r :
  In r (_normalize_constraints bl cs total) ->
  min_spend_effective r <= max_spend_effective r.
Proof.
  unfold _normalize_constraints. intros Hr.
  apply in_map_iff in Hr as [[b c] [<- _]].
  apply effective_bounds_ordered.
Qed.




Lemma merge_left_in bl cs b c :
  In (b, c) (merge_left bl cs) ->
  In b bl /\
  ((In c cs /\ c_channel c = b_channel b) \/
   (c = missing_constraint (b_channel b) /\
    forall c', In c' cs -> c_channel c' <> b_channel b)).
Proof.
  unfold merge_left. intros H. apply in_flat_map in H as [b' [Hb' H]].
  destruct (List.filter _ cs) as [|c0 m] eqn:E.
  - destruct H as [H|[]]. injection H as <- <-. split; [assumption|].
    right. split; [reflexivity|]. intros c' Hc' Heq.
    assert (In c' (List.filter
                     (fun c => String.eqb (c_channel c) (b_channel b')) cs))
      as Hin.
    { apply filter_In. split; [assumption|]. apply String.eqb_eq, Heq. }
    rewrite E in Hin. destruct Hin.
  - apply in_map_iff in H as [c' [H Hin]]. injection H as <- <-.
    rewrite <- E in Hin. apply filter_In in Hin as [Hin Heq].
    split; [assumption|]. left. split; [assumption|].
    apply String.eqb_eq, Heq.
Qed.

Lemma merge_left_missing bl cs b :
  In b bl -> (forall c, In c cs -> c_channel c <> b_channel b) ->
  In (b, missing_constraint (b_channel b)) (merge_left bl cs).
Proof.
  intros Hb Hno. unfold merge_left. apply in_flat_map. exists b.
  split; [assumption|].
  destruct (List.filter _ cs) as [|c0 m] eqn:E; [left; reflexivity|].
  exfalso.
  assert (In c0 (List.filter
                   (fun c => String.eqb (c_channel c) (b_channel b)) cs))
    as Hin by (rewrite E; left; reflexivity).
  apply filter_In in Hin as [Hin Heq]. apply String.eqb_eq in Heq.
  exact (Hno c0 Hin Heq).
Qed.

(** C1, as the code has it.  A baseline channel with no row in the
    constraint table is kept by the left merge, with a missing [enabled]
    cell; [as_bool] reads that cell as false, so the channel is treated as
    disabled and both of its effective bounds are 0. *)
Theorem missing_constraint_row_disabled bl cs total b :
  In b bl ->
  (forall c, In c cs -> c_channel c <> b_channel b) ->
  (exists r, In r (_normalize_constraints bl cs total) /\ base r = b) /\
  (forall r, In r (_normalize_constraints bl cs total) ->
     b_channel (base r) = b_channel b ->
     enabled r = false /\
     min_spend_effective r = 0 /\ max_spend_effective r = 0).
Proof.
  intros Hb Hno. unfold _normalize_constraints. split.
  - exists (normalize_row total (b, missing_constraint (b_channel b))).
    split; [|reflexivity].
    apply in_map, merge_left_missing; assumption.
  - intros r Hr Hch. apply in_map_iff in Hr as [[b' c] [<- Hin]].
    cbn in Hch.
    apply merge_left_in in Hin as [_ [[Hc Heq]|[-> _]]].
    + exfalso. apply (Hno c Hc). congruence.
    + cbn. repeat split; reflexivity.
Qed.

(** C1 fails as stated: with a budget of 1000 and no constraint row, the
    channel comes out disabled with an effective maximum of 0, not 1000. *)
Lemma missing_constraint_row_not_enabled :
  exists r,
    _normalize_constraints [search] [] 1000 = [r] /\
    enabled r = false /\
    ~ max_spend_effective r == 1000.
Proof.
  eexists. split; [vm_compute; reflexivity|].
  split; [reflexivity|]. intros H. discriminate H.
Qed.

Lemma missing_constraint_row_disabled_witness :
  (exists r, In r (_normalize_constraints [search; social]
                     [constraint "social" (FBool true) NNaN NNaN NNaN] 1000)
             /\ base r = search) /\
  (forall r, In r (_normalize_constraints [search; social]
                     [constraint "social" (FBool true) NNaN NNaN NNaN] 1000) ->
     b_channel (base r) = b_channel search ->
     enabled r = false /\
     min_spend_effective r = 0 /\ max_spend_effective r = 0).
Proof.
  apply missing_constraint_row_disabled.
  - left. reflexivity.
  - intros c [<-|[]]. vm_compute. discriminate.
Defined.

Lemma normalized_all_ordered bl cs total :
  Forall (fun row => min_spend_effective row <= max_spend_effective row)
         (_normalize_constraints bl cs total).
Proof.
  apply List.Forall_forall. intros r Hr.
  eapply normalized_ordered. exact Hr.
Qed.

Lemma normalized_locked bl cs total row l :
  In row (_normalize_constraints bl cs total) ->
  enabled row = true -> locked_spend row = Some l -> 0 <= l ->
  min_spend_effective row = l /\ max_spend_effective row = l.
Proof.
  unfold _normalize_constraints. intros Hr.
  apply in_map_iff in Hr as [[b c] [<- _]]. cbn.
  intros -> -> Hl. unfold effective_bounds. cbn [negb].
  apply Qle_bool_iff in Hl. rewrite Hl. split; reflexivity.
Qed.

End Constraints.

(** ** The response model *)

Module Response.
Import Num NumFacts IoUtils Optimize Samples.

Section WithPower.

Variable fpow : Q -> Q -> Q.

(** C6. [_predict] returns zero for all six outputs when [spend <= 0];
    when [spend > 0] each of pipeline, revenue, hqls and leads is its
    alpha times [spend ** beta], roas is revenue over spend, and cac is
    spend over hqls when hqls is positive and zero otherwise. *)
Theorem predict_spec (row : baseline_row) (spend : Q) :
  (spend <= 0 -> _predict fpow row spend = zero_metrics) /\
  (0 < spend ->
   let m := _predict fpow row spend in
   pipeline m = alpha_pipeline row * fpow spend (beta row) /\
   revenue m = alpha_revenue row * fpow spend (beta row) /\
   hqls m = alpha_hqls row * fpow spend (beta row) /\
   leads m = alpha_leads row * fpow spend (beta row) /\
   roas m = revenue m / spend /\
   (0 < hqls m -> cac m = spend / hqls m) /\
   (hqls m <= 0 -> cac m = 0)).
Proof.
  unfold _predict. split.
  - intros H. apply Qle_bool_iff in H. rewrite H. reflexivity.
  - intros H. pose proof H as Hpos.
    apply Qle_bool_false in H. rewrite H. cbn.
    apply Qlt_bool_iff in Hpos. rewrite Hpos.
    repeat split.
    + intros Hh. apply Qlt_bool_iff in Hh. rewrite Hh. reflexivity.
    + intros Hh. apply Qlt_bool_false in Hh. rewrite Hh. reflexivity.
Qed.

End WithPower.

Lemma predict_spec_witness :
  _predict linear_pow search 0 = zero_metrics /\
  pipeline (_predict linear_pow search 10) = 2 * 10 /\
  cac (_predict linear_pow search 10) = 10 / ((1 # 10) * 10).
Proof.
  destruct (predict_spec linear_pow search 0) as [H0 _].
  destruct (predict_spec linear_pow search 10) as [_ H1].
  split; [apply H0; discriminate|].
  destruct (H1 eq_refl) as (Hp & _ & _ & _ & _ & Hc & _).
  split; [exact Hp|]. apply Hc. reflexivity.
Defined.

End Response.

(** ** The allocation loop *)

Module Allocation.
Import Num NumFacts IoUtils Optimize Spec Samples.

Section WithPower.
Variable fpow : Q -> Q -> Q.
Variable weights : gmap string Q.
Variable merged : list merged_row.

Lemma consider_candidate step remaining allocation best idx row :
  merged !! idx = Some row ->
  candidate merged step remaining allocation best ->
  candidate merged step remaining allocation
            (consider fpow weights step remaining allocation best (idx, row)).
Proof.
  intros Hrow Hbest. unfold consider.
  destruct (enabled row) eqn:En; cbn [negb]; [|assumption].
  destruct (Qle_bool _ _) eqn:Hle; [assumption|].
  apply Qle_bool_false in Hle.
  assert (candidate merged step remaining allocation
            (Some (idx,
                   _score (_predict fpow (base row)
                             (allocation !!! idx
                              + Qmin (Qmin step remaining)
                                  (max_spend_effective row - allocation !!! idx)))
                          weights
                   - _score (_predict fpow (base row) (allocation !!! idx)) weights,
                   Qmin (Qmin step remaining)
                        (max_spend_effective row - allocation !!! idx)))) as Hnew.
  { cbn. exists row. repeat split; assumption. }
  destruct best as [[[? bg] ?]|]; [|exact Hnew].
  destruct (Qlt_bool bg _); [exact Hnew | exact Hbest].
Qed.

Lemma fold_consider_candidate step remaining allocation entries best :
  (forall idx row, In (idx, row) entries -> merged !! idx = Some row) ->
  candidate merged step remaining allocation best ->
  candidate merged step remaining allocation
            (fold_left (consider fpow weights step remaining allocation)
                       entries best).
Proof.
  revert best. induction entries as [|[idx row] entries IH]; intros best Hin Hb.
  - exact Hb.
  - cbn [fold_left]. apply IH.
    + intros i r Hi. apply Hin. right. exact Hi.
    + apply consider_candidate; [|exact Hb]. apply Hin. left. reflexivity.
Qed.

Lemma enumerate_lookup (l : list merged_row) idx row :
  In (idx, row) (zip (seq 0 (length l)) l) -> l !! idx = Some row.
Proof.
  intros Hin. apply list_elem_of_In, list_elem_of_lookup in Hin as [i Hi].
  apply lookup_zip_with_Some in Hi as (x & y & Heq & Hx & Hy).
  injection Heq as -> ->. apply lookup_seq in Hx as [-> _]. exact Hy.
Qed.

Lemma find_best_candidate step remaining allocation :
  candidate merged step remaining allocation
            (find_best fpow weights step remaining merged allocation).
Proof.
  unfold find_best. apply fold_consider_candidate; [|exact I].
  intros idx row. apply enumerate_lookup.
Qed.

Lemma greedy_invariant rounds step allocation remaining :
  0 < step ->
  Forall2 (in_bounds 0) merged allocation ->
  let out := greedy fpow rounds weights step merged allocation remaining in
  Forall2 (in_bounds 0) merged (fst out) /\
  sum (fst out) + snd out == sum allocation + remaining.
Proof.
  intros Hstep. revert allocation remaining.
  induction rounds as [|rounds IH]; intros allocation remaining Hb.
  - cbn. split; [assumption|reflexivity].
  - cbn [greedy].
    destruct (Qle_bool remaining eps9) eqn:Hrem;
      [cbn; split; [assumption|reflexivity]|].
    apply Qle_bool_false in Hrem.
    pose proof (find_best_candidate step remaining allocation) as Hc.
    destruct (find_best _ _ _ _ _ _) as [[[idx g] delta]|];
      [|cbn; split; [assumption|reflexivity]].
    destruct Hc as (row & Hrow & _ & Hlt & Hdelta).
    destruct (Forall2_lookup_l _ _ _ _ _ Hb Hrow) as (a & Ha & Hlo & Hhi).
    rewrite (list_lookup_total_correct _ _ _ Ha) in Hlt, Hdelta.
    assert (0 < delta /\ delta <= max_spend_effective row - a) as [Hd0 Hd1].
    { subst delta. unfold eps9 in *. split.
      - apply Q.min_glb_lt; [apply Q.min_glb_lt|]; lra.
      - apply Q.le_min_r. }
    specialize (IH (alter (fun a => a + delta) idx allocation)
                   (remaining - delta)).
    cbn zeta in IH. destruct IH as [IH1 IH2].
    { apply Forall2_alter_r; [assumption|].
      intros x y Hx Hy [H1 H2]. rewrite Hrow in Hx. injection Hx as <-.
      rewrite Ha in Hy. injection Hy as <-. split; lra. }
    split; [exact IH1|].
    rewrite IH2. rewrite (sum_alter _ _ _ _ Ha). ring.
Qed.


Lemma sum_headroom allocation :
  Forall2 (in_bounds 0) merged allocation ->
  sum (zip_with headroom merged allocation)
  == sum (map max_spend_effective merged) - sum allocation.
Proof.
  induction 1 as [|row a l k [Hlo Hhi] _ IH]; cbn.
  - reflexivity.
  - change (headroom row a + sum (zip_with headroom l k)
            == max_spend_effective row + sum (map max_spend_effective l)
               - (a + sum k)).
    rewrite IH. unfold headroom. rewrite Q.max_l by lra. ring.
Qed.

Lemma headroom_nonneg allocation :
  Forall (fun y => 0 <= y) (zip_with headroom merged allocation).
Proof.
  apply Forall_lookup_2. intros i x Hx.
  apply lookup_zip_with_Some in Hx as (row & a & -> & _ & _).
  apply Q.le_max_r.
Qed.

Lemma redistribute_invariant slack allocation remaining :
  0 <= slack ->
  Forall2 (in_bounds 0) merged allocation ->
  sum allocation + remaining <= sum (map max_spend_effective merged) + slack ->
  let out := redistribute merged allocation remaining in
  Forall2 (final_bounds slack) merged (fst out) /\
  sum (fst out) + snd out == sum allocation + remaining.
Proof.
  intros Hs Hb Hcap.
  assert (Forall2 (final_bounds slack) merged allocation) as Hkeep.
  { eapply Forall2_impl; [exact Hb|]. intros row a [H1 H2].
    repeat split; try lra. }
  unfold redistribute. fold headroom.
  destruct (Qlt_bool eps6 remaining) eqn:Hrem;
    [|cbn; split; [assumption|reflexivity]].
  apply Qlt_bool_iff in Hrem.
  set (available := zip_with headroom merged allocation).
  destruct (Qlt_bool 0 (sum available)) eqn:HS;
    [|cbn; split; [assumption|reflexivity]].
  apply Qlt_bool_iff in HS.
  pose proof (sum_headroom allocation Hb) as Hsum. fold available in Hsum.
  pose proof (headroom_nonneg allocation) as Hnn. fold available in Hnn.
  assert (length allocation = length available) as Hlen.
  { unfold available. symmetry. eapply length_zip_with_same_r. exact Hb. }
  unfold eps6 in Hrem.
  cbn [fst snd]. split.
  - apply Forall2_same_length_lookup_2.
    + rewrite length_zip_with, <- Hlen, Nat.min_id.
      eapply Forall2_length. exact Hb.
    + intros i row y Hrow Hy.
      apply lookup_zip_with_Some in Hy as (a & av & -> & Ha & Hav).
      pose proof (sum_elem_le _ _ _ Hnn Hav) as Hle.
      unfold available in Hav.
      apply lookup_zip_with_Some in Hav as (row' & a' & -> & Hrow' & Ha').
      rewrite Hrow in Hrow'. injection Hrow' as <-.
      rewrite Ha in Ha'. injection Ha' as <-.
      destruct (Forall2_lookup_lr _ _ _ _ _ _ Hb Hrow Ha) as [Hlo Hhi].
      assert (headroom row a == max_spend_effective row - a) as Hh
        by (unfold headroom; apply Q.max_l; lra).
      destruct (share_bound (headroom row a) (sum available) remaining slack)
        as [Ht0 Ht1]; try lra.
      repeat split; try lra.
      intros Hpin.
      rewrite (share_zero (headroom row a) (sum available) remaining); lra.
  - rewrite (sum_shares _ _ _ _ (Qnot_eq_sym _ _ (Qlt_not_eq _ _ HS)) Hlen).
    assert (sum available / sum available * remaining == remaining) as ->
      by (field; lra).
    ring.
Qed.

Lemma allocate_invariant slack total_budget :
  0 <= slack ->
  Forall (fun row => min_spend_effective row <= max_spend_effective row) merged ->
  total_budget <= sum (map max_spend_effective merged) + slack ->
  let out := allocate fpow weights total_budget merged in
  Forall2 (final_bounds slack) merged (fst out) /\
  sum (fst out) + snd out == total_budget.
Proof.
  intros Hs Hord Hcap. unfold allocate.
  set (allocation := map min_spend_effective merged).
  set (step := Qmax (total_budget / 400) 50).
  assert (0 < step) as Hstep.
  { eapply Qlt_le_trans; [|apply Q.le_max_r]. reflexivity. }
  assert (Forall2 (in_bounds 0) merged allocation) as Hb0.
  { unfold allocation. clear -Hord.
    induction Hord as [|row l H _ IH]; constructor; [|exact IH].
    split; lra. }
  pose proof (greedy_invariant max_rounds step allocation
                (total_budget - sum allocation) Hstep Hb0) as Hg.
  cbn zeta in Hg.
  destruct (greedy _ _ _ _ _ _ _) as [a1 r1]. cbn [fst snd] in Hg.
  destruct Hg as [Hb1 Hsum1].
  pose proof (redistribute_invariant slack a1 r1 Hs Hb1) as Hr.
  cbn zeta in Hr. destruct Hr as [Hf Hsum2]; [lra|].
  split; [exact Hf|]. lra.
Qed.

End WithPower.

End Allocation.

(** ** The whole run *)

Module Run.
Import Num NumFacts IoUtils Optimize Spec Samples Constraints Allocation.

Section WithPower.
Variable fpow : Q -> Q -> Q.

Lemma map_spend_report client total (merged : list merged_row) (spends : list Q) :
  length merged = length spends ->
  map recommended_spend (report_rows fpow client total merged spends)
  = map (fun s => round s 2) spends.
Proof.
  unfold report_rows. revert spends.
  induction merged as [|row l IH]; intros [|s k] Hlen; try discriminate.
  - reflexivity.
  - cbn in Hlen. injection Hlen as Hlen. cbn [zip_with map].
    f_equal. apply IH, Hlen.
Qed.


Lemma optimize_budget_ok now bl cs req cat res :
  optimize_budget fpow now bl cs req cat = Ok res ->
  let total := resolve_total_budget bl req in
  let merged := _normalize_constraints bl cs total in
  exists w spends remaining,
    _build_weights (resolve_objective req) cat
                   (Some (default ∅ (r_objective_overrides req))) = Ok w /\
    sum (map min_spend_effective merged) <= total + eps6 /\
    total <= sum (map max_spend_effective merged) + eps6 /\
    allocate fpow w total merged = (spends, remaining) /\
    allocation res
    = sort_by_spend (report_rows fpow (r_client_id req) total merged spends) /\
    unallocated_budget (result_summary res) = round remaining 6 /\
    s_total_budget (result_summary res) = round total 2 /\
    generated_at (result_summary res) = now.
Proof.
  unfold optimize_budget. cbn zeta.
  destruct (_build_weights _ _ _) as [w|e]; [|discriminate].
  destruct (Qlt_bool eps6 _) eqn:Hmin; [discriminate|].
  destruct (Qlt_bool _ (resolve_total_budget bl req)) eqn:Hmax; [discriminate|].
  apply Qlt_bool_false in Hmin, Hmax.
  destruct (allocate _ _ _ _) as [spends remaining] eqn:Ha.
  intros H. injection H as <-.
  exists w, spends, remaining.
  split; [reflexivity|]. split; [lra|]. split; [lra|].
  split; [exact Ha|]. repeat split; reflexivity.
Qed.

Lemma allocation_facts now bl cs req cat res :
  optimize_budget fpow now bl cs req cat = Ok res ->
  let total := resolve_total_budget bl req in
  let merged := _normalize_constraints bl cs total in
  exists w spends remaining,
    _build_weights (resolve_objective req) cat
                   (Some (default ∅ (r_objective_overrides req))) = Ok w /\
    allocate fpow w total merged = (spends, remaining) /\
    Permutation (allocation res)
                (report_rows fpow (r_client_id req) total merged spends) /\
    unallocated_budget (result_summary res) = round remaining 6 /\
    Forall2 (final_bounds eps6) merged spends /\
    (total <= sum (map max_spend_effective merged) ->
     Forall2 (final_bounds 0) merged spends) /\
    sum spends + remaining == total.
Proof.
  intros H. apply optimize_budget_ok in H. cbn zeta in H.
  destruct H as (w & spends & remaining & Hw & _ & Hmax & Ha & Hal & Hun & _).
  exists w, spends, remaining.
  pose proof (normalized_all_ordered bl cs (resolve_total_budget bl req)) as Hord.
  split; [exact Hw|]. split; [exact Ha|].
  split; [rewrite Hal; apply merge_sort_Permutation|].
  split; [exact Hun|].
  pose proof (allocate_invariant fpow w _ eps6 (resolve_total_budget bl req)
                ltac:(discriminate) Hord Hmax) as H6.
  cbn zeta in H6. rewrite Ha in H6. cbn [fst snd] in H6.
  destruct H6 as [H6 Hsum].
  split; [exact H6|]. split; [|exact Hsum].
  intros Hcap.
  pose proof (allocate_invariant fpow w _ 0 (resolve_total_budget bl req)
                ltac:(apply Qle_refl) Hord ltac:(lra)) as H0.
  cbn zeta in H0. rewrite Ha in H0. apply H0.
Qed.




(** C8, as the code has it.  In every run that returns a result, every
    enabled channel whose constraint row carries [locked_spend = L] with
    [L >= 0] is allocated exactly [L], whatever the objective and the
    weights; its reported [recommended_spend] is [round(L, 2)], which is
    [L] when [L] has at most two decimals. *)
Theorem locked_channel_spend now bl cs req cat res :
  optimize_budget fpow now bl cs req cat = Ok res ->
  let total := resolve_total_budget bl req in
  let merged := _normalize_constraints bl cs total in
  exists w spends remaining,
    _build_weights (resolve_objective req) cat
                   (Some (default ∅ (r_objective_overrides req))) = Ok w /\
    allocate fpow w total merged = (spends, remaining) /\
    forall i row L,
      merged !! i = Some row -> enabled row = true ->
      locked_spend row = Some L -> 0 <= L ->
      exists s,
        spends !! i = Some s /\ s == L /\
        In (report_row fpow (r_client_id req) total row s) (allocation res) /\
        recommended_spend (report_row fpow (r_client_id req) total row s)
        == round L 2 /\
        (round L 2 == L ->
         recommended_spend (report_row fpow (r_client_id req) total row s) == L).
Proof.
  intros H. apply allocation_facts in H. cbn zeta in H.
  destruct H as (w & spends & remaining & Hw & Ha & Hperm & _ & Hb & _ & _).
  exists w, spends, remaining. repeat (split; [assumption|]).
  intros i row L Hrow Hen Hlock HL.
  destruct (Forall2_lookup_l _ _ _ _ _ Hb Hrow) as (s & Hs & Hlo & _ & Hpin).
  assert (In row (_normalize_constraints bl cs (resolve_total_budget bl req)))
    as Hin by (apply list_elem_of_In, list_elem_of_lookup; eauto).
  destruct (normalized_locked _ _ _ _ _ Hin Hen Hlock HL) as [Hmin Hmax].
  assert (s == L) as HsL.
  { rewrite <- Hmin. apply Hpin. rewrite Hmin, Hmax. apply Qle_refl. }
  exists s. split; [exact Hs|]. split; [exact HsL|]. split.
  - eapply Permutation_in; [symmetry; exact Hperm|].
    apply list_elem_of_In, list_elem_of_lookup. exists i.
    unfold report_rows. apply lookup_zip_with_Some. eauto.
  - cbn [recommended_spend report_row].
    split; [rewrite HsL; reflexivity|].
    intros Hr. rewrite HsL. exact Hr.
Qed.

End WithPower.






(** C8 fails as stated.  A disabled channel whose constraint row carries
    [locked_spend = 500] is reported with 0; and an enabled channel
    locked at 600.004 is reported with 600.00. *)
Lemma locked_spend_not_reported :
  (exists res r,
     optimize_budget linear_pow "t0" baseline disabled_locked_constraints
                     (request (Some 1000)) catalog = Ok res /\
     allocation res !! 1%nat = Some r /\
     a_channel r = "search"%string /\
     ~ recommended_spend r == 500) /\
  (exists res r,
     optimize_budget linear_pow "t0" baseline locked_constraints
                     (request (Some 1000.008)) catalog = Ok res /\
     allocation res !! 0%nat = Some r /\
     a_channel r = "search"%string /\
     ~ recommended_spend r == 600.004).
Proof.
  split; do 2 eexists;
    repeat (split; [vm_compute; reflexivity|]); intros H; discriminate H.
Qed.

Lemma locked_channel_spend_witness :
  match optimize_budget linear_pow "t0" baseline locked_constraints
                        (request (Some 1000.008)) catalog with
  | Ok res =>
      exists s,
        s == 600.004 /\
        In (report_row linear_pow (Some "acme"%string) 1000.008
              (normalize_row 1000.008
                 (search,
                  constraint "search" (FBool true) NNaN NNaN (NNum 600.004)))
              s)
           (allocation res)
  | Err _ => False
  end.
Proof.
  destruct (optimize_budget linear_pow "t0" baseline locked_constraints
                            (request (Some 1000.008)) catalog) as [res|e] eqn:E.
  - destruct (locked_channel_spend linear_pow _ _ _ _ _ _ E)
      as (w & spends & remaining & _ & _ & Hall).
    destruct (Hall 0%nat
                (normalize_row 1000.008
                   (search,
                    constraint "search" (FBool true) NNaN NNaN (NNum 600.004)))
                600.004)
      as (s & _ & Hs & Hin & _).
    + vm_compute. reflexivity.
    + reflexivity.
    + reflexivity.
    + discriminate.
    + exists s. split; [exact Hs | exact Hin].
  - vm_compute in E. discriminate E.
Defined.


Section Checks.
Variable fpow : Q -> Q -> Q.

Lemma feasible_run_returns now bl cs req cat w :
  _build_weights (resolve_objective req) cat
                 (Some (default ∅ (r_objective_overrides req))) = Ok w ->
  let total := resolve_total_budget bl req in
  let merged := _normalize_constraints bl cs total in
  sum (map min_spend_effective merged) <= total + eps6 ->
  total - eps6 <= sum (map max_spend_effective merged) ->
  exists res, optimize_budget fpow now bl cs req cat = Ok res.
Proof.
  intros Hw. cbn zeta. intros H1 H2.
  unfold optimize_budget. cbn zeta. rewrite Hw.
  rewrite (proj2 (Qlt_bool_false _ _)) by lra.
  rewrite (proj2 (Qlt_bool_false _ _)) by lra.
  destruct (allocate _ _ _ _). eexists. reflexivity.
Qed.




End Checks.




End Run.

(** ** Rounding and order *)

Module Rounding.
Import Num NumFacts Text IoUtils Optimize Ingest Spec Notions Samples Constraints Allocation Run.

Lemma round_half_even_range x :
  (Qfloor x <= round_half_even x <= Qfloor x + 1)%Z.
Proof.
  unfold round_half_even.
  destruct (Qcompare _ _); [destruct (Z.even _)| |]; lia.
Qed.

Ltac compare_to_order H :=
  match type of H with
  | (_ ?= _) = Eq => apply Qeq_alt in H
  | (_ ?= _) = Lt => apply Qlt_alt in H
  | (_ ?= _) = Gt => apply Qgt_alt in H
  end.

Lemma round_half_even_mono x y : x <= y -> (round_half_even x <= round_half_even y)%Z.
Proof.
  intros Hxy. pose proof (Qfloor_resp_le _ _ Hxy) as Hf.
  pose proof (round_half_even_range x) as Hx.
  pose proof (round_half_even_range y) as Hy.
  destruct (Z.eq_dec (Qfloor x) (Qfloor y)) as [E|NE]; [|lia].
  unfold round_half_even. rewrite E.
  destruct (Qcompare (x - inject_Z (Qfloor y)) (1 # 2)) eqn:Cx;
    destruct (Qcompare (y - inject_Z (Qfloor y)) (1 # 2)) eqn:Cy;
    try (destruct (Z.even (Qfloor y))); try lia;
    compare_to_order Cx; compare_to_order Cy; exfalso; lra.
Qed.

Lemma round_mono x y nd : x <= y -> round x nd <= round y nd.
Proof.
  intros Hxy. unfold round. pose proof (pow10_pos nd) as Hp.
  assert (x * pow10 nd <= y * pow10 nd) as Hm
    by (apply Qmult_le_compat_r; lra).
  apply round_half_even_mono in Hm. rewrite Zle_Qle in Hm.
  apply Qle_shift_div_l; [assumption|].
  assert (inject_Z (round_half_even (x * pow10 nd)) / pow10 nd * pow10 nd
          == inject_Z (round_half_even (x * pow10 nd))) as -> by (field; lra).
  exact Hm.
Qed.

Lemma round_zero nd : round 0 nd == 0.
Proof.
  unfold round. change (0 * pow10 nd) with (0 * pow10 nd).
  assert (0 * pow10 nd == 0) as H by ring.
  rewrite (round_half_even_comp _ _ H).
  change (round_half_even 0) with 0%Z.
  pose proof (pow10_pos nd). field. lra.
Qed.

Lemma Qmax_eqv a b a' b' : a == a' -> b == b' -> Qmax a b == Qmax a' b'.
Proof.
  intros Ha Hb.
  destruct (Q.max_spec a b) as [[? ->]|[? ->]];
    destruct (Q.max_spec a' b') as [[? ->]|[? ->]]; lra.
Qed.

Lemma Qmin_eqv a b a' b' : a == a' -> b == b' -> Qmin a b == Qmin a' b'.
Proof.
  intros Ha Hb.
  destruct (Q.min_spec a b) as [[? ->]|[? ->]];
    destruct (Q.min_spec a' b') as [[? ->]|[? ->]]; lra.
Qed.

Lemma or_else_same x : or_else x 0 == x.
Proof.
  unfold or_else. destruct (Qeq_bool x 0) eqn:E; [|reflexivity].
  apply Qeq_bool_iff in E. lra.
Qed.

End Rounding.

(** ** Flags and names *)

Module Flags.
Import Num NumFacts Text IoUtils Optimize Ingest Spec Notions Samples Constraints Allocation Run.

Lemma is_space_lower c : is_space (lower_char c) = is_space c.
Proof. destruct c as [[] [] [] [] [] [] [] []]; reflexivity. Qed.

Lemma lower_char_idem c : lower_char (lower_char c) = lower_char c.
Proof. destruct c as [[] [] [] [] [] [] [] []]; reflexivity. Qed.

Lemma lstrip_lower l : lstrip (map lower_char l) = map lower_char (lstrip l).
Proof.
  induction l as [|c l IH]; [reflexivity|].
  cbn [map lstrip]. rewrite is_space_lower.
  destruct (is_space c); [exact IH | reflexivity].
Qed.

Lemma strip_list_lower l :
  strip_list (map lower_char l) = map lower_char (strip_list l).
Proof.
  unfold strip_list.
  rewrite lstrip_lower, <- map_rev, lstrip_lower, <- map_rev. reflexivity.
Qed.

Lemma lstrip_no_leading l : no_leading_space (lstrip l).
Proof.
  induction l as [|c l IH]; [exact I|].
  cbn [lstrip]. destruct (is_space c) eqn:E; [exact IH | exact E].
Qed.

Lemma lstrip_fixed l : no_leading_space l -> lstrip l = l.
Proof. destruct l as [|c l]; [reflexivity|]. cbn. intros ->. reflexivity. Qed.

Lemma lstrip_suffix l : exists p, l = p ++ lstrip l.
Proof.
  induction l as [|c l [p IH]]; [exists []; reflexivity|].
  cbn [lstrip]. destruct (is_space c).
  - exists (c :: p). cbn. f_equal. exact IH.
  - exists []. reflexivity.
Qed.

Lemma strip_list_no_leading l : no_leading_space (strip_list l).
Proof.
  unfold strip_list.
  pose proof (lstrip_no_leading l) as Ha.
  destruct (lstrip_suffix (rev (lstrip l))) as [p Hp].
  set (b := lstrip (rev (lstrip l))) in *.
  apply (f_equal (@rev ascii)) in Hp. rewrite rev_involutive, rev_app_distr in Hp.
  destruct (rev b) as [|c t]; [exact I|].
  rewrite Hp in Ha. exact Ha.
Qed.

Lemma strip_list_idem l : strip_list (strip_list l) = strip_list l.
Proof.
  pose proof (strip_list_no_leading l) as H.
  unfold strip_list at 1. rewrite (lstrip_fixed _ H).
  unfold strip_list. rewrite rev_involutive.
  rewrite (lstrip_fixed _ (lstrip_no_leading _)). reflexivity.
Qed.

Lemma normalize_text_idem s :
  lower (strip (lower (strip s))) = lower (strip s).
Proof.
  unfold lower, strip. fold (strip_list (list_ascii_of_string s)).
  rewrite !list_ascii_of_string_of_list_ascii.
  fold (strip_list (map lower_char (strip_list (list_ascii_of_string s)))).
  rewrite strip_list_lower, strip_list_idem.
  rewrite map_map. f_equal. apply map_ext. intros c. apply lower_char_idem.
Qed.


Lemma plain_strip l : Forall plain_char l -> strip_list l = l.
Proof.
  intros H. unfold strip_list.
  assert (forall k, Forall plain_char k -> lstrip k = k) as Hl.
  { intros k Hk. destruct Hk as [|c k [Hc _] _]; [reflexivity|].
    cbn. rewrite Hc. reflexivity. }
  rewrite (Hl l H). rewrite (Hl (rev l)) by (apply Forall_rev, H).
  apply rev_involutive.
Qed.

Lemma plain_lower l : Forall plain_char l -> map lower_char l = l.
Proof.
  induction 1 as [|c l [_ Hc] _ IH]; [reflexivity|].
  cbn [map]. rewrite Hc, IH. reflexivity.
Qed.

Lemma digits_plain u :
  Forall plain_char (list_ascii_of_string (NilEmpty.string_of_uint u)).
Proof.
  induction u; cbn [NilEmpty.string_of_uint list_ascii_of_string];
    constructor; try assumption; split; reflexivity.
Qed.

Lemma int_text_plain d :
  Forall plain_char (list_ascii_of_string (NilZero.string_of_int d)).
Proof.
  assert (forall u, Forall plain_char
                      (list_ascii_of_string (NilZero.string_of_uint u))) as Hu.
  { intros u. destruct u; try apply digits_plain.
    cbn. constructor; [split; reflexivity | constructor]. }
  destruct d as [u|u]; cbn [NilZero.string_of_int list_ascii_of_string].
  - apply Hu.
  - constructor; [split; reflexivity | apply Hu].
Qed.

Lemma int_text_normalized d :
  lower (strip (NilZero.string_of_int d)) = NilZero.string_of_int d.
Proof.
  unfold lower, strip. fold (strip_list (list_ascii_of_string (NilZero.string_of_int d))).
  rewrite list_ascii_of_string_of_list_ascii.
  rewrite (plain_strip _ (int_text_plain d)), (plain_lower _ (int_text_plain d)).
  apply string_of_list_ascii_of_string.
Qed.

(** X15.  An integer flag is true exactly when it is 1. *)
Theorem as_bool_int z : as_bool (FInt z) = true <-> z = 1%Z.
Proof.
  split.
  - unfold as_bool. cbn [py_str]. rewrite int_text_normalized.
    rewrite bool_decide_eq_true. unfold truthy_texts.
    intros Hin. rewrite <- (DecimalZ.of_to z).
    destruct (Z.to_int z) as [u|u]; cbn [NilZero.string_of_int] in Hin.
    + repeat (apply elem_of_cons in Hin as [Hin|Hin]);
        try (apply elem_of_nil in Hin; destruct Hin);
        destruct u as [|u|u|u|u|u|u|u|u|u|u]; try discriminate Hin.
      cbn in Hin. injection Hin as Hin.
      destruct u; try discriminate Hin. reflexivity.
    + repeat (apply elem_of_cons in Hin as [Hin|Hin]);
        try (apply elem_of_nil in Hin; destruct Hin); discriminate Hin.
  - intros ->. reflexivity.
Qed.

End Flags.

(** ** The choice made in each round, and when the loop stops *)

Module Loop.
Import Num NumFacts Text IoUtils Optimize Ingest Spec Notions Samples Constraints Allocation Run.
Import Rounding.

Section Choice.
Variable fpow : Q -> Q -> Q.
Variable weights : gmap string Q.
Variable merged : list merged_row.
Variables step remaining : Q.
Variable allocation : list Q.

Local Abbreviation gain_of := (Notions.gain_of fpow weights step remaining allocation).
Local Abbreviation chosen := (Notions.chosen fpow weights step remaining allocation).

Lemma consider_skip best idx row :
  ~ eligible allocation idx row ->
  consider fpow weights step remaining allocation best (idx, row) = best.
Proof.
  intros Hne. unfold consider.
  destruct (enabled row) eqn:En; cbn [negb]; [|reflexivity].
  destruct (Qle_bool _ _) eqn:Hle; [reflexivity|].
  exfalso. apply Hne. split; [exact En|]. apply Qle_bool_false, Hle.
Qed.

Lemma consider_take best idx row :
  eligible allocation idx row ->
  consider fpow weights step remaining allocation best (idx, row)
  = match best with
    | None => Some (idx, gain_of idx row,
                    delta_of step remaining allocation idx row)
    | Some (_, best_gain, _) =>
        if Qlt_bool best_gain (gain_of idx row)
        then Some (idx, gain_of idx row,
                   delta_of step remaining allocation idx row)
        else best
    end.
Proof.
  intros [En Hlt]. unfold consider. rewrite En. cbn [negb].
  rewrite (proj2 (Qle_bool_false _ _) Hlt). reflexivity.
Qed.

Lemma eligible_dec idx row :
  eligible allocation idx row \/ ~ eligible allocation idx row.
Proof.
  unfold eligible. destruct (enabled row); [|right; intros [? _]; discriminate].
  destruct (Qlt_le_dec (allocation !!! idx) (max_spend_effective row - eps9))
    as [H|H].
  - left. split; [reflexivity | exact H].
  - right. intros [_ H']. lra.
Qed.

Lemma fold_consider_chosen l :
  chosen l (fold_left (consider fpow weights step remaining allocation) l None).
Proof.
  induction l as [|[idx row] l IH] using rev_ind.
  - cbn. intros k i r H. destruct k; discriminate H.
  - rewrite fold_left_app. cbn [fold_left].
    set (best := fold_left _ l None) in *.
    destruct (eligible_dec idx row) as [He|Hne].
    + rewrite (consider_take _ _ _ He).
      destruct best as [[[i g] d]|].
      * destruct IH as (k & r & Hk & Hel & -> & -> & Hall).
        pose proof (lookup_lt_Some _ _ _ Hk) as Hklt.
        destruct (Qlt_bool (gain_of i r) (gain_of idx row)) eqn:Hg.
        -- apply Qlt_bool_iff in Hg.
           exists (length l), row. split; [apply lookup_snoc_Some; auto|].
           split; [exact He|]. split; [reflexivity|]. split; [reflexivity|].
           intros k' j r' Hk' Hel'.
           apply lookup_snoc_Some in Hk' as [[Hlt Hk']|[Hkeq Heq]].
           ++ destruct (Hall k' j r' Hk' Hel') as [Hle _]. split; [lra|].
              intros _. lra.
           ++ subst k'. injection Heq as <- <-. split; [apply Qle_refl|]. lia.
        -- apply Qlt_bool_false in Hg.
           exists k, r. split; [apply lookup_snoc_Some; auto|].
           split; [exact Hel|]. split; [reflexivity|]. split; [reflexivity|].
           intros k' j r' Hk' Hel'.
           apply lookup_snoc_Some in Hk' as [[Hlt Hk']|[Hkeq Heq]].
           ++ exact (Hall k' j r' Hk' Hel').
           ++ subst k'. injection Heq as <- <-. split; [exact Hg|]. lia.
      * exists (length l), row. split; [apply lookup_snoc_Some; auto|].
        split; [exact He|]. split; [reflexivity|]. split; [reflexivity|].
        intros k' j r' Hk' Hel'.
        apply lookup_snoc_Some in Hk' as [[Hlt Hk']|[Hkeq Heq]].
        -- exfalso. exact (IH k' j r' Hk' Hel').
        -- subst k'. injection Heq as <- <-. split; [apply Qle_refl|]. lia.
    + rewrite (consider_skip _ _ _ Hne).
      destruct best as [[[i g] d]|].
      * destruct IH as (k & r & Hk & Hel & -> & -> & Hall).
        pose proof (lookup_lt_Some _ _ _ Hk) as Hklt.
        exists k, r. split; [apply lookup_snoc_Some; auto|].
        split; [exact Hel|]. split; [reflexivity|]. split; [reflexivity|].
        intros k' j r' Hk' Hel'.
        apply lookup_snoc_Some in Hk' as [[Hlt Hk']|[Hkeq Heq]].
        -- exact (Hall k' j r' Hk' Hel').
        -- subst k'. injection Heq as <- <-. contradiction.
      * intros k' j r' Hk'.
        apply lookup_snoc_Some in Hk' as [[Hlt Hk']|[Hkeq Heq]].
        -- exact (IH k' j r' Hk').
        -- subst k'. injection Heq as <- <-. exact Hne.
Qed.

Lemma enumerate_lookup_iff k idx row :
  zip (seq 0 (length merged)) merged !! k = Some (idx, row)
  <-> idx = k /\ merged !! k = Some row.
Proof.
  split.
  - intros H. apply lookup_zip_with_Some in H as (x & y & Heq & Hx & Hy).
    injection Heq as -> ->. apply lookup_seq in Hx as [-> _]. auto.
  - intros [-> H]. apply lookup_zip_with_Some. exists k, row.
    split; [reflexivity|]. split; [|exact H].
    apply lookup_seq. split; [reflexivity|]. eapply lookup_lt_Some, H.
Qed.

Lemma no_pick_none_eligible :
  find_best fpow weights step remaining merged allocation = None ->
  forall idx row, merged !! idx = Some row -> ~ eligible allocation idx row.
Proof.
  intros E idx row Hrow.
  pose proof (fold_consider_chosen (zip (seq 0 (length merged)) merged)) as H.
  fold (find_best fpow weights step remaining merged allocation) in H.
  rewrite E in H. apply (H idx idx row). apply enumerate_lookup_iff. auto.
Qed.

(** X8.  A round picks no channel exactly when no enabled channel is
    more than 1e-9 below its effective maximum. *)
Theorem find_best_none :
  find_best fpow weights step remaining merged allocation = None <->
  forall idx row, merged !! idx = Some row -> ~ eligible allocation idx row.
Proof.
  pose proof (fold_consider_chosen (zip (seq 0 (length merged)) merged)) as H.
  fold (find_best fpow weights step remaining merged allocation) in H.
  split.
  - intros E. rewrite E in H. intros idx row Hrow.
    apply (H idx idx row). apply enumerate_lookup_iff. auto.
  - intros Hall.
    destruct (find_best _ _ _ _ _ _) as [[[i g] d]|]; [|reflexivity].
    destruct H as (k & r & Hk & Hel & _). exfalso.
    apply enumerate_lookup_iff in Hk as [-> Hk]. exact (Hall k r Hk Hel).
Qed.

(** X7.  The channel a round picks is eligible, its increment is
    [min(step, remaining, headroom)], its gain is at least the gain of
    every eligible channel and strictly greater than the gain of every
    eligible channel before it in the table: ties go to the first. *)
Theorem find_best_choice i g d :
  find_best fpow weights step remaining merged allocation = Some (i, g, d) ->
  exists row,
    merged !! i = Some row /\ eligible allocation i row /\
    g = gain_of i row /\ d = delta_of step remaining allocation i row /\
    forall j row',
      merged !! j = Some row' -> eligible allocation j row' ->
      gain_of j row' <= g /\ ((j < i)%nat -> gain_of j row' < g).
Proof.
  intros E.
  pose proof (fold_consider_chosen (zip (seq 0 (length merged)) merged)) as H.
  fold (find_best fpow weights step remaining merged allocation) in H.
  rewrite E in H. destruct H as (k & r & Hk & Hel & Hg & Hd & Hall).
  apply enumerate_lookup_iff in Hk as [-> Hk].
  exists r. split; [exact Hk|]. split; [exact Hel|].
  split; [exact Hg|]. split; [exact Hd|].
  intros j r' Hj Hel'. apply (Hall j j r'); [|exact Hel'].
  apply enumerate_lookup_iff. auto.
Qed.

End Choice.

Lemma is_open_mono row a a' :
  a <= a' -> is_open (row, a') = true -> is_open (row, a) = true.
Proof.
  unfold is_open. cbn [fst snd]. intros Hle H.
  apply andb_true_iff in H as [En H]. apply Qlt_bool_iff in H.
  rewrite En. apply Qlt_bool_iff. lra.
Qed.

Lemma open_count_le (merged : list merged_row) (allocation : list Q) :
  (open_count merged allocation <= length merged)%nat.
Proof.
  unfold open_count.
  etransitivity; [apply List.filter_length_le|].
  rewrite length_zip_with. lia.
Qed.

Lemma open_count_alter (merged : list merged_row) (allocation : list Q) i row a d :
  merged !! i = Some row -> allocation !! i = Some a -> 0 <= d ->
  (open_count merged (alter (fun x => (x + d)%Q) i allocation)
   <= open_count merged allocation)%nat /\
  (is_open (row, a) = true -> is_open (row, a + d) = false ->
   (open_count merged (alter (fun x => (x + d)%Q) i allocation)
    < open_count merged allocation)%nat).
Proof.
  unfold open_count. revert allocation i.
  induction merged as [|r l IH]; intros [|x k] [|i] Hrow Ha Hd;
    try discriminate.
  - cbn in Hrow, Ha. injection Hrow as ->. injection Ha as ->.
    cbn [alter list_alter zip zip_with List.filter].
    change (zip_with pair l k) with (zip l k).
    destruct (is_open (row, a + d)) eqn:E1.
    + assert (a <= a + d) as Hle by lra.
      rewrite (is_open_mono row a (a + d) Hle E1). cbn [length].
      split; [lia|].
      intros _ H. discriminate H.
    + destruct (is_open (row, a)); cbn [length]; split; try lia;
        intros H; discriminate H.
  - cbn in Hrow, Ha. specialize (IH k i Hrow Ha Hd).
    cbn [alter list_alter zip zip_with List.filter].
    change (zip_with pair l (list_alter (fun x => x + d) i k))
      with (zip l (alter (fun x => x + d) i k)).
    change (zip_with pair l k) with (zip l k).
    destruct (is_open (r, x)); cbn [length]; destruct IH as [IH1 IH2];
      split; try lia; intros H1 H2; specialize (IH2 H1 H2); lia.
Qed.

Lemma open_zero_not_eligible (merged : list merged_row) (allocation : list Q) idx row :
  length merged = length allocation ->
  open_count merged allocation = 0%nat ->
  merged !! idx = Some row -> ~ eligible allocation idx row.
Proof.
  intros Hlen H0 Hrow [En Hlt].
  destruct (lookup_lt_is_Some_2 allocation idx) as [a Ha].
  { rewrite <- Hlen. eapply lookup_lt_Some, Hrow. }
  rewrite (list_lookup_total_correct _ _ _ Ha) in Hlt.
  assert (In (row, a) (List.filter is_open (zip merged allocation))) as Hin.
  { apply filter_In. split.
    - apply list_elem_of_In, list_elem_of_lookup. exists idx.
      apply lookup_zip_with_Some. eauto.
    - unfold is_open. cbn [fst snd]. rewrite En.
      apply Qlt_bool_iff, Hlt. }
  unfold open_count in H0. apply length_zero_iff_nil in H0.
  rewrite H0 in Hin. destruct Hin.
Qed.

Lemma whole_steps_mono step r r' :
  0 < step -> r' <= r -> (whole_steps step r' <= whole_steps step r)%nat.
Proof.
  intros Hs Hr. unfold whole_steps.
  assert (r' / step <= r / step) as H.
  { unfold Qdiv. apply Qmult_le_compat_r; [exact Hr|].
    apply Qlt_le_weak, Qinv_lt_0_compat, Hs. }
  apply Qfloor_resp_le in H. lia.
Qed.

Lemma whole_steps_drop step r d :
  0 < step -> step <= d -> d <= r ->
  (whole_steps step (r - d) < whole_steps step r)%nat.
Proof.
  intros Hs Hd Hr. unfold whole_steps.
  assert ((r - d) / step <= r / step - 1) as H1.
  { apply Qle_shift_div_r; [exact Hs|].
    assert ((r / step - 1) * step == r - step) as -> by (field; lra). lra. }
  assert (1 <= r / step) as H2 by (apply Qle_shift_div_l; lra).
  pose proof (Qfloor_le ((r - d) / step)) as F1.
  pose proof (Qlt_floor (r / step)) as F2.
  rewrite inject_Z_plus in F2. change (inject_Z 1) with 1 in F2.
  assert (inject_Z (Qfloor ((r - d) / step)) < inject_Z (Qfloor (r / step)))
    as F by lra.
  rewrite <- Zlt_Qlt in F.
  apply Qfloor_resp_le in H2. change (Qfloor 1) with 1%Z in H2. lia.
Qed.

Section Cap.
Variable fpow : Q -> Q -> Q.
Variable weights : gmap string Q.
Variable merged : list merged_row.
Variable step : Q.
Hypothesis step_pos : 0 < step.

Lemma greedy_done rounds allocation remaining :
  remaining <= eps9 ->
  greedy fpow rounds weights step merged allocation remaining
  = (allocation, remaining).
Proof.
  intros H. destruct rounds as [|rounds]; [reflexivity|].
  cbn [greedy]. rewrite (proj2 (Qle_bool_iff _ _) H). reflexivity.
Qed.

Lemma greedy_terminal rounds allocation remaining :
  length merged = length allocation ->
  (open_count merged allocation + whole_steps step remaining < rounds)%nat ->
  let out := greedy fpow rounds weights step merged allocation remaining in
  snd out <= eps9 \/
  forall idx row, merged !! idx = Some row -> ~ eligible (fst out) idx row.
Proof.
  revert allocation remaining.
  induction rounds as [|rounds IH]; intros allocation remaining Hlen Hmu;
    [lia|].
  cbn zeta. cbn [greedy].
  destruct (Qle_bool remaining eps9) eqn:Hrem.
  { left. apply Qle_bool_iff, Hrem. }
  apply Qle_bool_false in Hrem.
  destruct (find_best fpow weights step remaining merged allocation)
    as [[[i g] d]|] eqn:Hbest.
  2:{ right. cbn [fst].
      apply (no_pick_none_eligible fpow weights merged step remaining).
      exact Hbest. }
  pose proof (find_best_candidate fpow weights merged step remaining allocation)
    as Hcand.
  rewrite Hbest in Hcand. destruct Hcand as (row & Hrow & En & Hlt & Hd).
  destruct (lookup_lt_is_Some_2 allocation i) as [a Ha].
  { rewrite <- Hlen. eapply lookup_lt_Some, Hrow. }
  unfold delta_of in Hd.
  rewrite (list_lookup_total_correct _ _ _ Ha) in Hlt, Hd.
  assert (0 < d /\ d <= step /\ d <= remaining
          /\ d <= max_spend_effective row - a) as (Hd0 & Hd1 & Hd2 & Hd3).
  { rewrite Hd. unfold eps9 in *.
    pose proof (Q.le_min_l (Qmin step remaining) (max_spend_effective row - a)).
    pose proof (Q.le_min_r (Qmin step remaining) (max_spend_effective row - a)).
    pose proof (Q.le_min_l step remaining).
    pose proof (Q.le_min_r step remaining).
    split; [|lra]. apply Q.min_glb_lt; [apply Q.min_glb_lt|]; lra. }
  assert (is_open (row, a) = true) as Hopen.
  { unfold is_open. cbn [fst snd]. rewrite En. apply Qlt_bool_iff, Hlt. }
  assert (0 <= d) as Hd0' by lra.
  assert (remaining - d <= remaining) as Hrd by lra.
  destruct (open_count_alter merged allocation i row a d Hrow Ha Hd0')
    as [Hc1 Hc2].
  pose proof (whole_steps_mono step remaining (remaining - d) step_pos Hrd)
    as Hk1.
  assert (d == step \/ d == remaining \/ d == max_spend_effective row - a)
    as Hcase.
  { rewrite Hd.
    destruct (Q.min_spec (Qmin step remaining) (max_spend_effective row - a))
      as [[_ E]|[_ E]]; [|right; right; exact E].
    destruct (Q.min_spec step remaining) as [[_ E']|[_ E']].
    - left. rewrite E. exact E'.
    - right. left. rewrite E. exact E'. }
  destruct Hcase as [Hs|[Hr|Hh]].
  - apply IH; [rewrite length_alter; exact Hlen|].
    assert (step <= d) as Hsd by lra.
    pose proof (whole_steps_drop step remaining d step_pos Hsd Hd2). lia.
  - rewrite greedy_done by (unfold eps9; lra).
    left. cbn [snd]. unfold eps9. lra.
  - apply IH; [rewrite length_alter; exact Hlen|].
    assert (is_open (row, a + d) = false) as Hclosed.
    { unfold is_open. cbn [fst snd]. rewrite En. cbn [andb].
      apply Qlt_bool_false. unfold eps9. lra. }
    specialize (Hc2 Hopen Hclosed). lia.
Qed.

End Cap.

Section CapRun.
Variable fpow : Q -> Q -> Q.

(** X9.  In [optimize_budget] the cap of 100,000 rounds is never what stops
    the loop when the table has at most 99,000 rows with non-negative
    effective minima: the loop leaves at most 1e-9 of the budget, or no
    enabled channel more than 1e-9 below its maximum. *)
Theorem round_cap_never_binds weights total_budget merged :
  Forall (fun row => 0 <= min_spend_effective row) merged ->
  (Z.of_nat (length merged) <= 99000)%Z ->
  let allocation := map min_spend_effective merged in
  let step := Qmax (total_budget / 400) 50 in
  let out :=
    greedy fpow max_rounds weights step merged allocation
           (total_budget - sum allocation) in
  snd out <= eps9 \/
  forall idx row, merged !! idx = Some row -> ~ eligible (fst out) idx row.
Proof.
  intros Hnn Hlen. cbn zeta.
  set (step := Qmax (total_budget / 400) 50).
  assert (0 < step) as Hstep.
  { eapply Qlt_le_trans; [|apply Q.le_max_r]. reflexivity. }
  assert (total_budget / 400 <= step) as Hstep' by apply Q.le_max_l.
  assert (0 <= sum (map min_spend_effective merged)) as Hsum.
  { apply sum_nonneg. apply Forall_map. exact Hnn. }
  apply (greedy_terminal fpow weights merged step Hstep);
    [rewrite length_map; reflexivity|].
  pose proof (open_count_le merged (map min_spend_effective merged)) as Ho.
  assert ((whole_steps step (total_budget - sum (map min_spend_effective merged))
           <= 400)%nat) as Hk.
  { unfold whole_steps.
    assert ((total_budget - sum (map min_spend_effective merged)) / step <= 400)
      as H.
    { apply Qle_shift_div_r; [exact Hstep|].
      assert (total_budget / 400 * 400 == total_budget) by field. lra. }
    apply Qfloor_resp_le in H. change (Qfloor 400) with 400%Z in H. lia. }
  unfold max_rounds. lia.
Qed.

End CapRun.

Section Residual.
Variable fpow : Q -> Q -> Q.
Variable weights : gmap string Q.
Variable merged : list merged_row.

Lemma greedy_remaining rounds step allocation remaining floor :
  floor <= 0 -> floor <= remaining ->
  floor <= snd (greedy fpow rounds weights step merged allocation remaining).
Proof.
  intros Hf. revert allocation remaining.
  induction rounds as [|rounds IH]; intros allocation remaining Hr; [exact Hr|].
  cbn [greedy].
  destruct (Qle_bool remaining eps9) eqn:Hrem; [exact Hr|].
  pose proof (find_best_candidate fpow weights merged step remaining allocation)
    as Hc.
  destruct (find_best _ _ _ _ _ _) as [[[idx g] delta]|]; [|exact Hr].
  destruct Hc as (row & _ & _ & _ & Hdelta).
  apply IH. subst delta.
  pose proof (Q.le_min_l (Qmin step remaining)
                (max_spend_effective row - allocation !!! idx)).
  pose proof (Q.le_min_r step remaining). lra.
Qed.

Lemma allocate_remaining total_budget :
  Forall (fun row => min_spend_effective row <= max_spend_effective row) merged ->
  sum (map min_spend_effective merged) <= total_budget + eps6 ->
  total_budget <= sum (map max_spend_effective merged) + eps6 ->
  - eps6 <= snd (allocate fpow weights total_budget merged) /\
  snd (allocate fpow weights total_budget merged) <= eps6.
Proof.
  intros Hord Hmin Hmax. unfold allocate.
  set (allocation := map min_spend_effective merged) in *.
  set (step := Qmax (total_budget / 400) 50).
  assert (0 < step) as Hstep.
  { eapply Qlt_le_trans; [|apply Q.le_max_r]. reflexivity. }
  assert (Forall2 (in_bounds 0) merged allocation) as Hb0.
  { unfold allocation. clear -Hord.
    induction Hord as [|row l H _ IH]; constructor; [|exact IH].
    split; lra. }
  pose proof (greedy_invariant fpow weights merged max_rounds step allocation
                (total_budget - sum allocation) Hstep Hb0) as Hg.
  pose proof (greedy_remaining max_rounds step allocation
                (total_budget - sum allocation) (- eps6)
                ltac:(discriminate) ltac:(lra)) as Hlow.
  cbn zeta in Hg.
  destruct (greedy _ _ _ _ _ _ _) as [a1 r1]. cbn [fst snd] in Hg, Hlow.
  destruct Hg as [Hb1 Hsum1].
  unfold redistribute.
  destruct (Qlt_bool eps6 r1) eqn:Hr; [|apply Qlt_bool_false in Hr; cbn; lra].
  pose proof (sum_headroom merged a1 Hb1) as Hs.
  destruct (Qlt_bool 0 _) eqn:HS; [cbn; split; discriminate|].
  apply Qlt_bool_false in HS. cbn [snd]. lra.
Qed.

End Residual.

End Loop.

(** ** What a run returns *)

Module Outcome.
Import Num NumFacts Text IoUtils Optimize Ingest Spec Notions Samples Constraints Allocation Run.
Import Rounding Flags Loop.

#[global] Instance spend_desc_trans : Transitive spend_desc.
Proof. intros x y z H1 H2. unfold spend_desc in *. lra. Qed.

#[global] Instance spend_desc_total : Total spend_desc.
Proof.
  intros x y. unfold spend_desc.
  destruct (Qlt_le_dec (recommended_spend x) (recommended_spend y)) as [H|H].
  - right. apply Qlt_le_weak, H.
  - left. exact H.
Qed.

Lemma filter_channel_unique ch (cs : list constraint_row) :
  NoDup (map c_channel cs) ->
  (length (List.filter (fun c => String.eqb (c_channel c) ch) cs) <= 1)%nat.
Proof.
  induction cs as [|c cs IH]; intros Hnd; [cbn; lia|].
  cbn [map] in Hnd. apply NoDup_cons in Hnd as [Hnot Hnd].
  cbn [List.filter]. destruct (String.eqb (c_channel c) ch) eqn:E;
    [|apply IH, Hnd].
  apply String.eqb_eq in E. subst ch.
  assert (List.filter (fun c0 => String.eqb (c_channel c0) (c_channel c)) cs = [])
    as ->; [|cbn; lia].
  clear -Hnot. induction cs as [|c' cs IH]; [reflexivity|].
  cbn [List.filter]. destruct (String.eqb (c_channel c') (c_channel c)) eqn:E.
  - exfalso. apply Hnot. apply String.eqb_eq in E. rewrite <- E.
    cbn [map]. left.
  - apply IH. intros H. apply Hnot. cbn [map]. right. exact H.
Qed.

Lemma merge_left_unique bl cs :
  NoDup (map c_channel cs) -> map fst (merge_left bl cs) = bl.
Proof.
  intros Hnd. unfold merge_left.
  induction bl as [|b bl IH]; [reflexivity|].
  cbn [flat_map]. rewrite map_app, IH. 
  pose proof (filter_channel_unique (b_channel b) cs Hnd) as Hlen.
  destruct (List.filter _ cs) as [|c [|c' m]]; cbn in Hlen |- *;
    try reflexivity; lia.
Qed.

Lemma normalized_bases bl cs total :
  NoDup (map c_channel cs) ->
  map base (_normalize_constraints bl cs total) = bl.
Proof.
  intros Hnd. unfold _normalize_constraints.
  transitivity (map fst (merge_left bl cs));
    [|apply merge_left_unique, Hnd].
  rewrite map_map. apply map_ext. intros [b c]. reflexivity.
Qed.


Section Results.
Variable fpow : Q -> Q -> Q.

(** X1.  In every run that returns a result, a channel whose [enabled]
    flag reads false is allocated exactly 0 and reported with
    [recommended_spend] 0, whatever its other constraint cells say. *)
Theorem disabled_channel_gets_nothing now bl cs req cat res :
  optimize_budget fpow now bl cs req cat = Ok res ->
  let total := resolve_total_budget bl req in
  let merged := _normalize_constraints bl cs total in
  exists w spends remaining,
    _build_weights (resolve_objective req) cat
                   (Some (default ∅ (r_objective_overrides req))) = Ok w /\
    allocate fpow w total merged = (spends, remaining) /\
    forall i row,
      merged !! i = Some row -> enabled row = false ->
      exists s,
        spends !! i = Some s /\ s == 0 /\
        In (report_row fpow (r_client_id req) total row s) (allocation res) /\
        recommended_spend (report_row fpow (r_client_id req) total row s) == 0.
Proof.
  intros H. apply allocation_facts in H. cbn zeta in H.
  destruct H as (w & spends & remaining & Hw & Ha & Hperm & _ & Hb & _ & _).
  exists w, spends, remaining. repeat (split; [assumption|]).
  intros i row Hrow Hen.
  destruct (Forall2_lookup_l _ _ _ _ _ Hb Hrow) as (s & Hs & _ & _ & Hpin).
  assert (In row (_normalize_constraints bl cs (resolve_total_budget bl req)))
    as Hin by (apply list_elem_of_In, list_elem_of_lookup; eauto).
  unfold _normalize_constraints in Hin.
  apply in_map_iff in Hin as [[b c] [Heq _]].
  assert (min_spend_effective row = 0 /\ max_spend_effective row = 0)
    as [Hmin Hmax].
  { subst row. cbn in Hen |- *. unfold effective_bounds. rewrite Hen.
    split; reflexivity. }
  assert (s == 0) as Hs0.
  { rewrite <- Hmin. apply Hpin. rewrite Hmin, Hmax. apply Qle_refl. }
  exists s. split; [exact Hs|]. split; [exact Hs0|]. split.
  - eapply Permutation_in; [symmetry; exact Hperm|].
    apply list_elem_of_In, list_elem_of_lookup. exists i.
    unfold report_rows. apply lookup_zip_with_Some. eauto.
  - cbn [recommended_spend report_row]. rewrite Hs0. reflexivity.
Qed.


Lemma report_rows_channels client total merged spends :
  length merged = length spends ->
  map a_channel (report_rows fpow client total merged spends)
  = map (fun row => b_channel (base row)) merged.
Proof.
  unfold report_rows. revert spends.
  induction merged as [|row l IH]; intros [|s k] Hlen; try discriminate.
  - reflexivity.
  - cbn in Hlen. injection Hlen as Hlen. cbn [zip_with map].
    f_equal. apply IH, Hlen.
Qed.


(** X4.  When no channel has two rows in the constraint table, the
    allocation table has exactly one row per row of the baseline table,
    with the same channel names. *)
Theorem one_row_per_channel now bl cs req cat res :
  NoDup (map c_channel cs) ->
  optimize_budget fpow now bl cs req cat = Ok res ->
  length (allocation res) = length bl /\
  Permutation (map a_channel (allocation res)) (map b_channel bl).
Proof.
  intros Hnd H. apply allocation_facts in H. cbn zeta in H.
  destruct H as (w & spends & remaining & _ & _ & Hperm & _ & Hb & _ & _).
  pose proof (Forall2_length _ _ _ Hb) as Hlen.
  pose proof (normalized_bases bl cs (resolve_total_budget bl req) Hnd) as Hbase.
  assert (map a_channel
            (report_rows fpow (r_client_id req) (resolve_total_budget bl req)
               (_normalize_constraints bl cs (resolve_total_budget bl req))
               spends)
          = map b_channel bl) as Hch.
  { rewrite (report_rows_channels _ _ _ _ Hlen).
    rewrite <- (map_map base b_channel). rewrite Hbase. reflexivity. }
  split.
  - rewrite <- (length_map a_channel), (Permutation_length (Permutation_map a_channel Hperm)).
    rewrite Hch. apply length_map.
  - rewrite <- Hch. apply Permutation_map, Hperm.
Qed.



Lemma greedy_empty rounds w step remaining :
  greedy fpow rounds w step [] [] remaining = ([], remaining).
Proof.
  destruct rounds as [|rounds]; [reflexivity|].
  cbn [greedy]. destruct (Qle_bool remaining eps9); reflexivity.
Qed.


(** X11.  An objective the catalog does not define is reported before
    the tables are looked at: whatever the baseline and the constraints,
    the run fails with Unknown-Objective for the normalized name. *)
Theorem unknown_objective_first now bl cs req cat :
  default ∅ (default ∅ (cat !! "objectives"%string) !! resolve_objective req)
  = ∅ ->
  optimize_budget fpow now bl cs req cat
  = Err (UnknownObjective (resolve_objective req)).
Proof.
  intros H. unfold optimize_budget, _build_weights. cbn zeta.
  rewrite decide_True by exact H. reflexivity.
Qed.

End Results.

(** X6.  The guardrail status is ["fail"] exactly when a [min_roas]
    threshold is set and the overall roas is below it, or a [max_cac]
    threshold is set and the overall cac is above it; it is ["pass"]
    otherwise.  A missing, [None] or NaN threshold is not checked. *)
Theorem guardrail_check_spec g roas cac :
  let min_roas := match g with Some g => to_float (g_min_roas g) | None => None end in
  let max_cac := match g with Some g => to_float (g_max_cac g) | None => None end in
  (guardrail_check g roas cac = "fail"%string <->
   (exists m, min_roas = Some m /\ roas < m) \/
   (exists m, max_cac = Some m /\ m < cac)) /\
  (guardrail_check g roas cac = "fail"%string \/
   guardrail_check g roas cac = "pass"%string).
Proof.
  cbn zeta. unfold guardrail_check.
  destruct (match g with Some g0 => to_float (g_min_roas g0) | None => None end)
    as [m1|];
  destruct (match g with Some g0 => to_float (g_max_cac g0) | None => None end)
    as [m2|].
  all: repeat match goal with
       | |- context [Qlt_bool ?a ?b] =>
           let E := fresh "E" in
           destruct (Qlt_bool a b) eqn:E;
           [apply Qlt_bool_iff in E | apply Qlt_bool_false in E]
       end.
  all: split; [split|]; try (left; reflexivity); try (right; reflexivity);
    try discriminate; eauto.
  all: intros [(m & Hm & Hlt)|(m & Hm & Hlt)]; try discriminate;
    try (injection Hm as <-); exfalso; lra.
Qed.

End Outcome.

(** ** Default constraints *)

Module Defaults.
Import Num NumFacts Text IoUtils Optimize Ingest Spec Notions Samples Constraints Allocation Run.
Import Rounding Flags Loop Outcome.

Lemma max_spend_for_range total row :
  0 < total ->
  round (total * 0.10) 2 <= max_spend_for total row /\
  max_spend_for total row <= round (total * 0.75) 2.
Proof.
  intros HT. unfold max_spend_for.
  rewrite (proj2 (Qle_bool_false _ _) HT).
  set (b := baseline_spend (st_row row)).
  split; apply round_mono.
  - apply Q.min_glb; [apply Q.le_max_r | lra].
  - apply Q.le_min_r.
Qed.

(** X16.  For a positive total budget, the [max_spend] of every default
    constraint lies between 10% and 75% of the budget, each rounded to
    two decimals. *)
Theorem default_caps_range baseline_df total :
  0 < total ->
  Forall (fun c =>
            exists m, c_max_spend c = NNum m /\
              round (total * 0.10) 2 <= m /\ m <= round (total * 0.75) 2)
         (build_default_constraints baseline_df total).
Proof.
  intros HT. unfold build_default_constraints.
  apply List.Forall_forall. intros c Hc.
  apply in_map_iff in Hc as [row [<- _]].
  exists (max_spend_for total row). split; [reflexivity|].
  apply max_spend_for_range, HT.
Qed.

Lemma min_le_max_spend total row :
  0 <= baseline_spend (st_row row) ->
  (0 < total -> baseline_spend (st_row row) <= total) ->
  min_spend_for row <= max_spend_for total row.
Proof.
  intros Hb HbT. unfold min_spend_for, max_spend_for.
  set (b := baseline_spend (st_row row)) in *.
  destruct (Qle_bool b 0) eqn:Eb; destruct (Qle_bool total 0) eqn:ET.
  - rewrite <- (round_zero 2). apply round_mono.
    apply Qle_bool_iff in Eb. lra.
  - apply Qle_bool_false in ET. rewrite <- (round_zero 2). apply round_mono.
    apply Q.min_glb; [|lra].
    eapply Qle_trans; [|apply Q.le_max_r]. lra.
  - apply round_mono. lra.
  - apply Qle_bool_false in ET. specialize (HbT ET). apply round_mono.
    apply Q.min_glb; [|lra].
    eapply Qle_trans; [|apply Q.le_max_l]. lra.
Qed.

(** X17.  When every baseline spend is non-negative and, for a positive
    budget, at most the budget, every default constraint has
    [0 <= min_spend <= max_spend]. *)
Theorem default_bounds_consistent baseline_df total :
  Forall (fun row => 0 <= baseline_spend (st_row row) /\
                     (0 < total -> baseline_spend (st_row row) <= total))
         baseline_df ->
  Forall (fun c =>
            exists lo hi, c_min_spend c = NNum lo /\ c_max_spend c = NNum hi /\
              0 <= lo /\ lo <= hi)
         (build_default_constraints baseline_df total).
Proof.
  intros H. unfold build_default_constraints.
  apply Forall_map. eapply Forall_impl; [exact H|].
  intros row [Hb HbT]. cbn.
  exists (min_spend_for row), (max_spend_for total row).
  split; [reflexivity|]. split; [reflexivity|].
  split; [|apply min_le_max_spend; assumption].
  unfold min_spend_for. destruct (Qle_bool _ 0); [apply Qle_refl|].
  rewrite <- (round_zero 2). apply round_mono. lra.
Qed.

Lemma default_row_bounds total T row :
  0 < T -> total == T ->
  let r := normalize_row total (st_row row, default_constraint T row) in
  base r = st_row row /\
  (enabled r = true <-> 0 < baseline_spend (st_row row)) /\
  min_spend_effective r == min_spend_for row /\
  (0 < baseline_spend (st_row row) ->
   max_spend_effective r == Qmax (max_spend_for T row) (min_spend_for row)) /\
  (baseline_spend (st_row row) <= 0 -> max_spend_effective r == 0).
Proof.
  intros HT Htot. cbn zeta. unfold normalize_row, default_constraint.
  cbn [c_enabled c_min_spend c_max_spend c_locked_spend c_min_share
       c_max_share c_min_roas c_max_cac as_bool to_float base enabled
       min_spend_effective max_spend_effective].
  rewrite (proj2 (Qlt_bool_iff 0 T) HT). cbn [to_float].
  set (b := baseline_spend (st_row row)).
  set (lo := min_spend_for row). set (hi := max_spend_for T row).
  split; [reflexivity|]. split; [apply Qlt_bool_iff|].
  unfold effective_bounds.
  assert (Qmax (or_default (Some lo) 0) (lo / T * total) == lo) as Hlo.
  { unfold or_default.
    rewrite (Qmax_eqv _ _ lo lo (or_else_same lo)); [apply Q.max_id|].
    rewrite Htot. field. lra. }
  assert (Qmin (or_default (Some hi) total) (hi / T * total) == hi) as Hhi.
  { assert (hi / T * total == hi) as Hs by (rewrite Htot; field; lra).
    unfold or_default, or_else. destruct (Qeq_bool hi 0) eqn:E.
    - apply Qeq_bool_iff in E. rewrite Q.min_r; lra.
    - rewrite (Qmin_eqv _ _ hi hi (Qeq_refl _) Hs). apply Q.min_id. }
  destruct (Qlt_bool 0 b) eqn:Eb; cbn [negb fst snd].
  - apply Qlt_bool_iff in Eb. split; [exact Hlo|]. split.
    + intros _. apply Qmax_eqv; assumption.
    + intros H. exfalso. lra.
  - apply Qlt_bool_false in Eb. split.
    + unfold lo, min_spend_for. fold b.
      rewrite (proj2 (Qle_bool_iff b 0) Eb). reflexivity.
    + split; [intros H; exfalso; lra | reflexivity].
Qed.

Lemma filter_defaults T (l : list channel_stats) s :
  NoDup (map (fun s => b_channel (st_row s)) l) -> In s l ->
  List.filter (fun c => String.eqb (c_channel c) (b_channel (st_row s)))
              (map (default_constraint T) l)
  = [default_constraint T s].
Proof.
  induction l as [|y l IH]; intros Hnd Hin; [destruct Hin|].
  cbn [map] in Hnd. apply NoDup_cons in Hnd as [Hnot Hnd].
  cbn [map List.filter].
  change (c_channel (default_constraint T y)) with (b_channel (st_row y)).
  destruct Hin as [->|Hin].
  - rewrite String.eqb_refl. f_equal.
    clear -Hnot. induction l as [|z l IH]; [reflexivity|].
    cbn [map List.filter].
    change (c_channel (default_constraint T z)) with (b_channel (st_row z)).
    destruct (String.eqb (b_channel (st_row z)) (b_channel (st_row s))) eqn:E.
    + exfalso. apply Hnot. apply String.eqb_eq in E. rewrite <- E.
      cbn [map]. left.
    + apply IH. intros H. apply Hnot. cbn [map]. right. exact H.
  - destruct (String.eqb (b_channel (st_row y)) (b_channel (st_row s))) eqn:E;
      [|apply IH; assumption].
    exfalso. apply Hnot. apply String.eqb_eq in E. rewrite E.
    apply list_elem_of_In.
    apply (in_map (fun s => b_channel (st_row s))), Hin.
Qed.

Lemma merge_left_defaults stats T :
  NoDup (map (fun s => b_channel (st_row s)) stats) ->
  merge_left (map st_row stats) (build_default_constraints stats T)
  = map (fun s => (st_row s, default_constraint T s)) stats.
Proof.
  intros Hnd. unfold merge_left, build_default_constraints.
  match goal with |- flat_map ?F0 _ = _ => set (F := F0) end.
  assert (forall s, In s stats -> F (st_row s) = [(st_row s, default_constraint T s)])
    as Hone.
  { intros s Hs. unfold F. rewrite (filter_defaults T stats s Hnd Hs).
    reflexivity. }
  assert (forall l, (forall s, In s l -> In s stats) ->
            flat_map F (map st_row l)
            = map (fun s => (st_row s, default_constraint T s)) l) as H.
  { induction l as [|s l IH]; intros Hsub; [reflexivity|].
    cbn [map].
    change (flat_map F (st_row s :: map st_row l))
      with (F (st_row s) ++ flat_map F (map st_row l)).
    rewrite IH by (intros s' Hs'; apply Hsub; right; exact Hs').
    rewrite Hone by (apply Hsub; left; reflexivity). reflexivity. }
  apply H. auto.
Qed.

(** X18.  Default constraints built for a budget [T > 0] from a baseline with
    distinct channel names resolve, for a run budget equal to [T], to one
    row per channel in baseline order: enabled exactly when the channel's
    baseline spend is positive, with effective minimum [min_spend] and,
    when enabled, effective maximum [max(max_spend, min_spend)]. *)
Theorem default_constraints_resolve stats T total :
  NoDup (map (fun s => b_channel (st_row s)) stats) ->
  0 < T -> total == T ->
  Forall2 (fun s r =>
             base r = st_row s /\
             (enabled r = true <-> 0 < baseline_spend (st_row s)) /\
             min_spend_effective r == min_spend_for s /\
             (0 < baseline_spend (st_row s) ->
              max_spend_effective r
              == Qmax (max_spend_for T s) (min_spend_for s)) /\
             (baseline_spend (st_row s) <= 0 -> max_spend_effective r == 0))
          stats
          (_normalize_constraints (map st_row stats)
             (build_default_constraints stats T) total).
Proof.
  intros Hnd HT Htot. unfold _normalize_constraints.
  rewrite (merge_left_defaults stats T Hnd). rewrite map_map.
  clear Hnd. induction stats as [|s l IH]; constructor; [|exact IH].
  apply (default_row_bounds total T s HT Htot).
Qed.

Section Results.
Variable fpow : Q -> Q -> Q.

(** X19.  A baseline of a single channel with spend [b >= 1], its default
    constraints built for the budget [b], and a run whose budget is [b]:
    the cap of 75% of the budget makes the run infeasible. *)
Theorem single_channel_defaults_infeasible now s req cat w :
  _build_weights (resolve_objective req) cat
                 (Some (default ∅ (r_objective_overrides req))) = Ok w ->
  1 <= baseline_spend (st_row s) ->
  resolve_total_budget [st_row s] req == baseline_spend (st_row s) ->
  exists max_total,
    optimize_budget fpow now [st_row s]
      (build_default_constraints [s] (baseline_spend (st_row s))) req cat
    = Err (InfeasibleMax max_total
             (round (resolve_total_budget [st_row s] req) 2)).
Proof.
  intros Hw Hb Htot.
  set (b := baseline_spend (st_row s)) in *.
  assert (0 < b) as Hpos by lra.
  pose proof (default_row_bounds (resolve_total_budget [st_row s] req) b s
                Hpos Htot) as Hres.
  cbn zeta in Hres. destruct Hres as (_ & _ & Hmin & Hmax & _).
  specialize (Hmax Hpos).
  assert (NoDup (map (fun s => b_channel (st_row s)) [s])) as Hnd
    by (repeat constructor; intros H; inversion H).
  unfold optimize_budget. cbn zeta. rewrite Hw.
  unfold _normalize_constraints.
  change [st_row s] with (map st_row [s]).
  rewrite (merge_left_defaults [s] b Hnd). cbn [map].
  rewrite !sum_cons. change (sum []) with 0.
  pose proof (round2_error (b * 0.40)) as E1.
  apply Qabs_Qle_condition in E1 as [_ E1].
  assert (min_spend_for s <= b * 0.40 + (1 # 200)) as Hlo.
  { unfold min_spend_for. fold b. destruct (Qle_bool b 0); lra. }
  pose proof (max_spend_for_range b s Hpos) as [_ Hcap].
  pose proof (round2_error (b * 0.75)) as E2.
  apply Qabs_Qle_condition in E2 as [_ E2].
  assert (Qmax (max_spend_for b s) (min_spend_for s) <= b * 0.75 + (1 # 200))
    as Hhi by (apply Q.max_lub; lra).
  unfold eps6.
  rewrite (proj2 (Qlt_bool_false _ _)) by lra.
  rewrite (proj2 (Qlt_bool_iff _ _)) by lra.
  eexists. reflexivity.
Qed.

End Results.

End Defaults.

(** ** The properties at sample inputs *)

Module Instances.
Import Num NumFacts Text IoUtils Optimize Ingest Spec Notions Samples MoreSamples.
Import Constraints Allocation Run Rounding Flags Loop Outcome Defaults.


Lemma as_bool_int_witness : as_bool (FInt 1) = true.
Proof. apply (proj2 (as_bool_int 1)). reflexivity. Defined.

Lemma find_best_none_witness :
  find_best linear_pow pipeline_weights 50 100 plain_merged [800; 900] = None.
Proof.
  apply (proj2 (find_best_none linear_pow pipeline_weights plain_merged
                  50 100 [800; 900])).
  intros idx row Hrow [_ Hlt].
  destruct idx as [|[|idx]]; cbn in Hrow; try discriminate Hrow;
    injection Hrow as <-; vm_compute in Hlt; discriminate Hlt.
Defined.

Lemma find_best_choice_witness :
  exists i row,
    plain_merged !! i = Some row /\ eligible [100; 0] i row.
Proof.
  destruct (find_best linear_pow pipeline_weights 50 900 plain_merged [100; 0])
    as [[[i g] d]|] eqn:E; [|vm_compute in E; discriminate E].
  destruct (find_best_choice linear_pow pipeline_weights plain_merged 50 900
              [100; 0] i g d E) as (row & H1 & H2 & _).
  exists i, row. split; assumption.
Defined.

Lemma round_cap_never_binds_witness :
  let out :=
    greedy linear_pow max_rounds pipeline_weights (Qmax (1000 / 400) 50)
           plain_merged (map min_spend_effective plain_merged)
           (1000 - sum (map min_spend_effective plain_merged)) in
  snd out <= eps9 \/
  forall idx row, plain_merged !! idx = Some row -> ~ eligible (fst out) idx row.
Proof.
  apply (round_cap_never_binds linear_pow pipeline_weights 1000 plain_merged).
  - repeat constructor; discriminate.
  - vm_compute. discriminate.
Defined.

Lemma disabled_channel_gets_nothing_witness :
  match optimize_budget linear_pow "t0" baseline disabled_locked_constraints
                        (request (Some 1000)) catalog with
  | Ok res =>
      exists s,
        s == 0 /\
        In (report_row linear_pow (Some "acme"%string) 1000
              (normalize_row 1000
                 (search,
                  constraint "search" (FBool false) NNaN NNaN (NNum 500)))
              s)
           (allocation res)
  | Err _ => False
  end.
Proof.
  destruct (optimize_budget linear_pow "t0" baseline disabled_locked_constraints
                            (request (Some 1000)) catalog) as [res|e] eqn:E.
  - destruct (disabled_channel_gets_nothing linear_pow _ _ _ _ _ _ E)
      as (w & spends & remaining & _ & _ & Hall).
    destruct (Hall 0%nat
                (normalize_row 1000
                   (search,
                    constraint "search" (FBool false) NNaN NNaN (NNum 500))))
      as (s & _ & Hs & Hin & _).
    + vm_compute. reflexivity.
    + reflexivity.
    + exists s. split; [exact Hs | exact Hin].
  - vm_compute in E. discriminate E.
Defined.



Lemma one_row_per_channel_witness :
  match optimize_budget linear_pow "t0" baseline plain_constraints
                        (request (Some 1000)) catalog with
  | Ok res =>
      length (allocation res) = length baseline /\
      Permutation (map a_channel (allocation res)) (map b_channel baseline)
  | Err _ => False
  end.
Proof.
  destruct (optimize_budget linear_pow "t0" baseline plain_constraints
                            (request (Some 1000)) catalog) as [res|e] eqn:E.
  - apply (one_row_per_channel linear_pow _ _ _ _ _ _ ) in E; [exact E|].
    apply (bool_decide_eq_true_1 _). vm_compute. reflexivity.
  - vm_compute in E. discriminate E.
Defined.

Lemma guardrail_check_spec_witness :
  guardrail_check (Some roas_floor) 1 5 = "fail"%string.
Proof.
  apply (proj2 (proj1 (guardrail_check_spec (Some roas_floor) 1 5))).
  left. exists 2. split; reflexivity.
Defined.



Lemma unknown_objective_first_witness :
  optimize_budget linear_pow "t0" baseline heavy_constraints
                  (request_for "Revenue") catalog
  = Err (UnknownObjective "revenue").
Proof.
  apply (unknown_objective_first linear_pow "t0" baseline heavy_constraints
           (request_for "Revenue") catalog).
  vm_compute. reflexivity.
Defined.

Lemma default_caps_range_witness :
  Forall (fun c =>
            exists m, c_max_spend c = NNum m /\
              round (1500 * 0.10) 2 <= m /\ m <= round (1500 * 0.75) 2)
         (build_default_constraints stats 1500).
Proof. apply default_caps_range. reflexivity. Defined.

Lemma default_bounds_consistent_witness :
  Forall (fun c =>
            exists lo hi, c_min_spend c = NNum lo /\ c_max_spend c = NNum hi /\
              0 <= lo /\ lo <= hi)
         (build_default_constraints stats 1500).
Proof.
  apply default_bounds_consistent.
  repeat constructor; intros; discriminate.
Defined.

Lemma default_constraints_resolve_witness :
  Forall2 (fun s r =>
             base r = st_row s /\
             (enabled r = true <-> 0 < baseline_spend (st_row s)) /\
             min_spend_effective r == min_spend_for s /\
             (0 < baseline_spend (st_row s) ->
              max_spend_effective r
              == Qmax (max_spend_for 1500 s) (min_spend_for s)) /\
             (baseline_spend (st_row s) <= 0 -> max_spend_effective r == 0))
          stats
          (_normalize_constraints (map st_row stats)
             (build_default_constraints stats 1500) 1500).
Proof.
  apply default_constraints_resolve.
  - apply (bool_decide_eq_true_1 _). vm_compute. reflexivity.
  - reflexivity.
  - reflexivity.
Defined.

Lemma single_channel_defaults_infeasible_witness :
  exists max_total,
    optimize_budget linear_pow "t0" [search]
      (build_default_constraints [search_stats] 1000) (request (Some 1000))
      catalog
    = Err (InfeasibleMax max_total (round 1000 2)).
Proof.
  destruct (_build_weights (resolve_objective (request (Some 1000))) catalog
              (Some (default ∅ (r_objective_overrides (request (Some 1000))))))
    as [w|e] eqn:E; [|vm_compute in E; discriminate E].
  apply (single_channel_defaults_infeasible linear_pow "t0" search_stats
           (request (Some 1000)) catalog w E).
  - discriminate.
  - reflexivity.
Defined.

End Instances.
